(** * LuxuryTree: sampling, smoothing and shading of the morphing tree

    A shallow embedding of [src/utils/math.ts] and of the [LuxuryTree]
    component (shaders, construction data and the per-frame callback).

    Numbers.  A JavaScript [number] and a GLSL [float] are modelled as a real
    number: every arithmetic operator of the source is the exact operation on
    [R].  Rounding, infinities and NaN are therefore outside the model; the
    module [Binary64] replays [lerp] on IEEE binary64 values, and the last
    section shows where the exact and the rounded results agree and where
    they part.

    Randomness.  [Math.random()] reads the next value of a stream of draws
    that is threaded through the samplers (module [Js]). *)

From Stdlib Require Import Reals Lra Lia List ZArith.
From Stdlib Require PrimFloat.
Import ListNotations.

Local Open Scope R_scope.

(* ================================================================== *)
(** ** The JavaScript built-ins the sources call *)
(* ================================================================== *)

Module Js.

(** The pending draws of [Math.random()], next one first. *)
Definition Rng : Type := nat -> R.

(** A computation that consumes draws. *)
Definition Rand (A : Type) : Type := Rng -> A * Rng.

Definition ret {A} (a : A) : Rand A := fun s => (a, s).

Definition bind {A B} (m : Rand A) (k : A -> Rand B) : Rand B :=
  fun s => let (a, s') := m s in k a s'.

(** [Math.random()]: take the head of the stream, keep the tail. *)
Definition Math_random : Rand R :=
  fun s => (s 0%nat, fun n => s (S n)).

(** Every draw of the stream lies in [0, 1), as [Math.random] promises. *)
Definition unit_draws (s : Rng) : Prop := forall n, 0 <= s n < 1.

(** The stream after [k] draws were taken. *)
Definition advance (k : nat) (s : Rng) : Rng := fun n => s (k + n)%nat.

Definition Math_PI : R := PI.
Definition Math_sin : R -> R := sin.
Definition Math_cos : R -> R := cos.

(** [Math.acos] on its domain [-1, 1]. *)
Definition Math_acos : R -> R := acos.

(** [Math.cbrt]: the real cube root, odd in its argument. *)
Definition Math_cbrt (x : R) : R :=
  if Rlt_dec 0 x then Rpower x (/ 3)
  else if Rlt_dec x 0 then - Rpower (- x) (/ 3)
  else 0.

(** [Math.pow base e] for a base that is not negative and a positive
    exponent: [exp (e * ln base)] above zero, and [0] at zero.  (A
    negative base with a fractional exponent is NaN in JavaScript and has
    no counterpart here.) *)
Definition Math_pow (base e : R) : R :=
  if Rlt_dec 0 base then Rpower base e else 0.

End Js.

Notation "x <- c ;; k" := (Js.bind c (fun x => k))
  (at level 61, c at next level, right associativity).

(* ================================================================== *)
(** ** THREE.Vector3 *)
(* ================================================================== *)

Record Vector3 : Type := mkVector3 { vx : R; vy : R; vz : R }.

(** [new THREE.Vector3()]: the three components default to zero. *)
Definition Vector3_new : Vector3 := mkVector3 0 0 0.

(** Euclidean length, [Vector3.length()]. *)
Definition Vector3_length (p : Vector3) : R :=
  sqrt (vx p * vx p + vy p * vy p + vz p * vz p).

(** Distance of a point from the vertical axis. *)
Definition axis_distance (p : Vector3) : R :=
  sqrt (vx p * vx p + vz p * vz p).

(* ================================================================== *)
(** ** src/utils/math.ts *)
(* ================================================================== *)

Module MathTs.
Import Js.

(** Generate random point inside a sphere. *)
Definition getRandomSpherePoint (radius : R) : Rand Vector3 :=
  u <- Math_random ;;
  v <- Math_random ;;
  let theta := 2 * Math_PI * u in
  let phi := Math_acos (2 * v - 1) in
  w <- Math_random ;;
  let r := Math_cbrt w * radius in
  let sinPhi := Math_sin phi in
  ret (mkVector3 (r * sinPhi * Math_cos theta)
                 (r * sinPhi * Math_sin theta)
                 (r * Math_cos phi)).

(** Generate point of the cone (tree shape) with curved profile. *)
Definition getConePoint (height radiusBase yOffset : R) : Rand Vector3 :=
  u <- Math_random ;;
  let y := u * height in
  let taper := Math_pow (1 - y / height) 0.8 in
  let actualR := radiusBase * taper in
  v <- Math_random ;;
  let theta := v * Math_PI * 2 in
  w <- Math_random ;;
  let r := actualR * (0.4 + w * 0.6) in
  ret (mkVector3 (r * Math_cos theta)
                 (y + yOffset)
                 (r * Math_sin theta)).

(** The third parameter of [getConePoint] defaults to [0]. *)
Definition getConePoint_default (height radiusBase : R) : Rand Vector3 :=
  getConePoint height radiusBase 0.

Definition lerp (start end_ t : R) : R :=
  start * (1 - t) + end_ * t.

End MathTs.

(* ================================================================== *)
(** ** The vertex shader [foliageVertexShader] *)
(* ================================================================== *)

Module Glsl.

Record vec2 : Type := Vec2 { v2x : R; v2y : R }.
Record vec3 : Type := Vec3 { v3x : R; v3y : R; v3z : R }.
Record vec4 : Type := Vec4 { v4x : R; v4y : R; v4z : R; v4w : R }.

(** A 4x4 matrix by its rows, so that [M * v] is four dot products. *)
Record mat4 : Type := Mat4 { row0 : vec4; row1 : vec4; row2 : vec4; row3 : vec4 }.

(** Component-wise lifting, as GLSL applies scalar operators and
    functions to vectors. *)
Definition map3 (f : R -> R) (a : vec3) : vec3 :=
  Vec3 (f (v3x a)) (f (v3y a)) (f (v3z a)).
Definition zip3 (f : R -> R -> R) (a b : vec3) : vec3 :=
  Vec3 (f (v3x a) (v3x b)) (f (v3y a) (v3y b)) (f (v3z a) (v3z b)).
Definition map4 (f : R -> R) (a : vec4) : vec4 :=
  Vec4 (f (v4x a)) (f (v4y a)) (f (v4z a)) (f (v4w a)).
Definition zip4 (f : R -> R -> R) (a b : vec4) : vec4 :=
  Vec4 (f (v4x a) (v4x b)) (f (v4y a) (v4y b))
       (f (v4z a) (v4z b)) (f (v4w a) (v4w b)).

(** A scalar operand is promoted to a vector of equal components. *)
Definition splat3 (s : R) : vec3 := Vec3 s s s.
Definition splat4 (s : R) : vec4 := Vec4 s s s s.

Definition add3 := zip3 Rplus.
Definition sub3 := zip3 Rminus.
Definition add4 := zip4 Rplus.
Definition sub4 := zip4 Rminus.
Definition mul4 := zip4 Rmult.
Definition adds3 (a : vec3) (s : R) : vec3 := add3 a (splat3 s).
Definition muls3 (a : vec3) (s : R) : vec3 := map3 (fun c => c * s) a.
Definition adds4 (a : vec4) (s : R) : vec4 := add4 a (splat4 s).
Definition muls4 (a : vec4) (s : R) : vec4 := map4 (fun c => c * s) a.

Definition dot3 (a b : vec3) : R :=
  v3x a * v3x b + v3y a * v3y b + v3z a * v3z b.
Definition dot4 (a b : vec4) : R :=
  v4x a * v4x b + v4y a * v4y b + v4z a * v4z b + v4w a * v4w b.

Definition mat4_mul (m : mat4) (v : vec4) : vec4 :=
  Vec4 (dot4 (row0 m) v) (dot4 (row1 m) v) (dot4 (row2 m) v) (dot4 (row3 m) v).

(** Built-in functions of the shading language. *)
Definition floor (x : R) : R := IZR (Zfloor x).
Definition step (edge x : R) : R := if Rlt_dec x edge then 0 else 1.
Definition mix (x y a : R) : R := x * (1 - a) + y * a.
Definition mix3 (x y : vec3) (a : R) : vec3 :=
  zip3 (fun p q => mix p q a) x y.

(** *** Simplex noise *)

Definition mod289 (x : R) : R := x - floor (x * (1 / 289)) * 289.

Definition permute (x : vec4) : vec4 :=
  map4 mod289 (map4 (fun c => ((c * 34) + 1) * c) x).

Definition taylorInvSqrt (r : vec4) : vec4 :=
  map4 (fun c => 1.79284291400159 - 0.85373472095314 * c) r.

Definition snoise (v : vec3) : R :=
  let C := Vec2 (1 / 6) (1 / 3) in
  let D := Vec4 0 0.5 1 2 in
  let i := map3 floor (adds3 v (dot3 v (splat3 (v2y C)))) in
  let x0 := adds3 (sub3 v i) (dot3 i (splat3 (v2x C))) in
  (* g = step(x0.yzx, x0.xyz) *)
  let g := zip3 step (Vec3 (v3y x0) (v3z x0) (v3x x0)) x0 in
  let l := map3 (fun c => 1 - c) g in
  let lzxy := Vec3 (v3z l) (v3x l) (v3y l) in
  let i1 := zip3 Rmin g lzxy in
  let i2 := zip3 Rmax g lzxy in
  let x1 := add3 (sub3 x0 i1) (splat3 (v2x C)) in
  let x2 := add3 (sub3 x0 i2) (splat3 (v2y C)) in
  let x3 := sub3 x0 (splat3 (v4y D)) in
  let i := map3 mod289 i in
  let p :=
    permute (add4 (adds4
      (permute (add4 (adds4
        (permute (add4 (splat4 (v3z i)) (Vec4 0 (v3z i1) (v3z i2) 1)))
        (v3y i)) (Vec4 0 (v3y i1) (v3y i2) 1)))
      (v3x i)) (Vec4 0 (v3x i1) (v3x i2) 1)) in
  let n_ := 0.142857142857 in
  (* ns = n_ * D.wyz - D.xzx *)
  let ns := sub3 (map3 (fun c => n_ * c) (Vec3 (v4w D) (v4y D) (v4z D)))
                 (Vec3 (v4x D) (v4z D) (v4x D)) in
  let j := sub4 p (map4 (fun c => 49 * c)
                     (map4 floor (muls4 (muls4 p (v3z ns)) (v3z ns)))) in
  let x_ := map4 floor (muls4 j (v3z ns)) in
  let y_ := map4 floor (sub4 j (map4 (fun c => 7 * c) x_)) in
  let x := add4 (muls4 x_ (v3x ns)) (splat4 (v3y ns)) in
  let y := add4 (muls4 y_ (v3x ns)) (splat4 (v3y ns)) in
  let h := sub4 (sub4 (splat4 1) (map4 Rabs x)) (map4 Rabs y) in
  let b0 := Vec4 (v4x x) (v4y x) (v4x y) (v4y y) in
  let b1 := Vec4 (v4z x) (v4w x) (v4z y) (v4w y) in
  let s0 := adds4 (muls4 (map4 floor b0) 2) 1 in
  let s1 := adds4 (muls4 (map4 floor b1) 2) 1 in
  (* sh = -step(h, vec4(0.0)) *)
  let sh := map4 Ropp (zip4 step h (splat4 0)) in
  (* a0 = b0.xzyw + s0.xzyw * sh.xxyy *)
  let a0 := add4 (Vec4 (v4x b0) (v4z b0) (v4y b0) (v4w b0))
                 (mul4 (Vec4 (v4x s0) (v4z s0) (v4y s0) (v4w s0))
                       (Vec4 (v4x sh) (v4x sh) (v4y sh) (v4y sh))) in
  (* a1 = b1.xzyw + s1.xzyw * sh.zzww *)
  let a1 := add4 (Vec4 (v4x b1) (v4z b1) (v4y b1) (v4w b1))
                 (mul4 (Vec4 (v4x s1) (v4z s1) (v4y s1) (v4w s1))
                       (Vec4 (v4z sh) (v4z sh) (v4w sh) (v4w sh))) in
  let p0 := Vec3 (v4x a0) (v4y a0) (v4x h) in
  let p1 := Vec3 (v4z a0) (v4w a0) (v4y h) in
  let p2 := Vec3 (v4x a1) (v4y a1) (v4z h) in
  let p3 := Vec3 (v4z a1) (v4w a1) (v4w h) in
  let norm := taylorInvSqrt
                (Vec4 (dot3 p0 p0) (dot3 p1 p1) (dot3 p2 p2) (dot3 p3 p3)) in
  let p0 := muls3 p0 (v4x norm) in
  let p1 := muls3 p1 (v4y norm) in
  let p2 := muls3 p2 (v4z norm) in
  let p3 := muls3 p3 (v4w norm) in
  let m := map4 (fun c => Rmax c 0)
             (sub4 (splat4 0.6)
                (Vec4 (dot3 x0 x0) (dot3 x1 x1) (dot3 x2 x2) (dot3 x3 x3))) in
  let m := mul4 m m in
  42 * dot4 (mul4 m m)
            (Vec4 (dot3 p0 x0) (dot3 p1 x1) (dot3 p2 x2) (dot3 p3 x3)).

(** *** [main] *)

Record Uniforms : Type := mkUniforms {
  uProgress : R;
  uTime : R;
  modelViewMatrix : mat4;
  projectionMatrix : mat4 }.

Record Attributes : Type := mkAttributes {
  aTreePos : vec3;
  aChaosPos : vec3;
  aSize : R;
  aColor : vec3;
  aIsLight : R }.

Record VertexOut : Type := mkVertexOut {
  gl_Position : vec4;
  gl_PointSize : R;
  vColor : vec3;
  vIsLight : R }.

(** [mix(aTreePos, aChaosPos, uProgress)], the first value of [pos]. *)
Definition mixed_pos (u : Uniforms) (a : Attributes) : vec3 :=
  mix3 (aTreePos a) (aChaosPos a) (uProgress u).

(** [float noise = snoise(pos * 0.5 + uTime * 0.5)]. *)
Definition wind_noise (u : Uniforms) (a : Attributes) : R :=
  snoise (adds3 (muls3 (mixed_pos u a) 0.5) (uTime u * 0.5)).

(** The scalar added to every component by
    [pos += noise * 0.2 * (1.0 - uProgress)]. *)
Definition wind_offset (u : Uniforms) (a : Attributes) : R :=
  wind_noise u a * 0.2 * (1 - uProgress u).

(** [pos] after the wind was added. *)
Definition displaced_pos (u : Uniforms) (a : Attributes) : vec3 :=
  adds3 (mixed_pos u a) (wind_offset u a).

(** [float twinkle = sin(uTime * 3.0 + pos.x * 10.0) * 0.5 + 0.5]. *)
Definition twinkle (u : Uniforms) (a : Attributes) : R :=
  sin (uTime u * 3 + v3x (displaced_pos u a) * 10) * 0.5 + 0.5.

(** [baseSize] as it stands when [gl_PointSize] is assigned. *)
Definition baseSize (u : Uniforms) (a : Attributes) : R :=
  if Rlt_dec 0.5 (aIsLight a)
  then aSize a * (1 + twinkle u a * 1.5)
  else aSize a.

Definition main (u : Uniforms) (a : Attributes) : VertexOut :=
  let pos := displaced_pos u a in
  let mvPosition :=
    mat4_mul (modelViewMatrix u) (Vec4 (v3x pos) (v3y pos) (v3z pos) 1) in
  {| gl_Position := mat4_mul (projectionMatrix u) mvPosition;
     gl_PointSize := baseSize u a * (300 / - v4z mvPosition);
     vColor := aColor a;
     vIsLight := aIsLight a |}.

End Glsl.

(* ================================================================== *)
(** ** The [LuxuryTree] component *)
(* ================================================================== *)

Module LuxuryTree.
Import Js MathTs.

Definition ORNAMENT_COUNT : nat := 400.

(** *** The application store *)

(** Modelled from the spec: the store module ([../store]) is not part of the
    sources at hand.  It holds the current and the desired blend scalar;
    the frame callback reads both and writes the updated current one
    back. *)
Record AppStore : Type := mkAppStore {
  chaosLevel : R;
  targetChaosLevel : R }.

Definition setChaosLevel (v : R) (st : AppStore) : AppStore :=
  {| chaosLevel := v; targetChaosLevel := targetChaosLevel st |}.

(** *** Ornament and star targets, built once *)

Record Targets : Type := mkTargets {
  tree : list Vector3;
  chaos : list Vector3 }.

Record StarTargets : Type := mkStarTargets {
  star_tree : Vector3;
  star_chaos : Vector3 }.

Record Memo : Type := mkMemo {
  ornamentTargets : Targets;
  starTargets : StarTargets }.

(** The loop [for (i = 0; i < ORNAMENT_COUNT; i++)] that pushes one cone
    point and one sphere point per ornament. *)
Fixpoint push_targets (n : nat) (treeArr chaosArr : list Vector3)
  : Rand (list Vector3 * list Vector3) :=
  match n with
  | O => ret (treeArr, chaosArr)
  | S n' =>
      t <- getConePoint 13.5 5.2 (-6.8) ;;
      c <- getRandomSpherePoint 22 ;;
      push_targets n' (treeArr ++ [t]) (chaosArr ++ [c])
  end.

Definition build_targets : Rand Memo :=
  arrs <- push_targets ORNAMENT_COUNT [] [] ;;
  let starTree := mkVector3 0 7.5 0 in
  starChaos <- getRandomSpherePoint 25 ;;
  ret {| ornamentTargets := {| tree := fst arrs; chaos := snd arrs |};
         starTargets := {| star_tree := starTree; star_chaos := starChaos |} |}.

(** *** What the frame callback reads and writes *)

(** The two uniforms the callback sets on the shader material. *)
Record ShaderUniforms : Type := mkShaderUniforms {
  uProgress : R;
  uTime : R }.

Record StarMesh : Type := mkStarMesh {
  position : Vector3;
  rotation_y : R;
  rotation_z : R }.

(** One instance matrix, by the position and scale [dummy] had when
    [updateMatrix] composed it. *)
Record Instance : Type := mkInstance {
  inst_position : Vector3;
  inst_scale : Vector3 }.

(** A ref is [None] until its object is mounted. *)
Record Scene : Type := mkScene {
  appStore : AppStore;
  shaderRef : option ShaderUniforms;
  starRef : option StarMesh;
  ornamentsRef : option (list Instance);
  currentPos : list Vector3;
  currentStarPos : Vector3 }.

(** [new Array(ORNAMENT_COUNT).fill(0).map(() => new THREE.Vector3())]. *)
Definition currentPos_init : list Vector3 :=
  map (fun _ : R => Vector3_new) (repeat 0 ORNAMENT_COUNT).

(** [useRef(new THREE.Vector3(0, 0, 0))]. *)
Definition currentStarPos_init : Vector3 := mkVector3 0 0 0.

(** The scene as the component leaves it before the first frame. *)
Definition initial_scene (st : AppStore) (shader : option ShaderUniforms)
    (star : option StarMesh) (ornaments : option (list Instance)) : Scene :=
  {| appStore := st;
     shaderRef := shader;
     starRef := star;
     ornamentsRef := ornaments;
     currentPos := currentPos_init;
     currentStarPos := currentStarPos_init |}.

(** *** The animation loop *)

(** [targetX], [targetY], [targetZ]: the tree and chaos targets blended by
    the new chaos level. *)
Definition blended_target (tPos cPos : Vector3) (newChaos : R) : Vector3 :=
  mkVector3 (lerp (vx tPos) (vx cPos) newChaos)
            (lerp (vy tPos) (vy cPos) newChaos)
            (lerp (vz tPos) (vz cPos) newChaos).

(** The three assignments that move a current position toward its target
    with factor [delta * 4.0]. *)
Definition follow (cur target : Vector3) (delta : R) : Vector3 :=
  mkVector3 (lerp (vx cur) (vx target) (delta * 4.0))
            (lerp (vy cur) (vy target) (delta * 4.0))
            (lerp (vz cur) (vz target) (delta * 4.0)).

(** The ornament loop.  The three arrays have [ORNAMENT_COUNT] entries
    each and are walked in step; every round yields the new current
    position and the instance written by [setMatrixAt]. *)
Fixpoint update_ornaments (treeArr chaosArr cur : list Vector3)
    (newChaos delta : R) : list (Vector3 * Instance) :=
  match treeArr, chaosArr, cur with
  | tPos :: treeArr', cPos :: chaosArr', p :: cur' =>
      let target := blended_target tPos cPos newChaos in
      let p' := follow p target delta in
      let scale := lerp 0.35 0.1 newChaos in
      (p', {| inst_position := p';
              inst_scale := mkVector3 scale scale scale |})
        :: update_ornaments treeArr' chaosArr' cur' newChaos delta
  | _, _, _ => []
  end.

(** The value [newChaos] of a frame. *)
Definition newChaos_of (st : AppStore) (delta : R) : R :=
  lerp (chaosLevel st) (targetChaosLevel st) (delta * 2.0).

(** The callback given to [useFrame]; [elapsedTime] is
    [state.clock.elapsedTime]. *)
Definition useFrame (memo : Memo) (elapsedTime delta : R) (sc : Scene)
  : Scene :=
  let currentChaos := chaosLevel (appStore sc) in
  let newChaos :=
    lerp currentChaos (targetChaosLevel (appStore sc)) (delta * 2.0) in
  let store' := setChaosLevel newChaos (appStore sc) in
  (* 1. Update Shader *)
  let shader' :=
    match shaderRef sc with
    | Some _ => Some {| uProgress := newChaos; uTime := elapsedTime |}
    | None => None
    end in
  (* 2. Update Star *)
  let starStep :=
    match starRef sc with
    | Some mesh =>
        let sT := star_tree (starTargets memo) in
        let sC := star_chaos (starTargets memo) in
        let cur' :=
          follow (currentStarPos sc) (blended_target sT sC newChaos) delta in
        (Some {| position := cur';
                 rotation_y := rotation_y mesh + delta;
                 rotation_z := rotation_z mesh + delta * 0.5 |}, cur')
    | None => (None, currentStarPos sc)
    end in
  (* 3. Update Ornaments *)
  let ornStep :=
    match ornamentsRef sc with
    | Some _ =>
        let rounds :=
          update_ornaments (tree (ornamentTargets memo))
                           (chaos (ornamentTargets memo))
                           (currentPos sc) newChaos delta in
        (Some (map snd rounds), map fst rounds)
    | None => (None, currentPos sc)
    end in
  {| appStore := store';
     shaderRef := shader';
     starRef := fst starStep;
     ornamentsRef := fst ornStep;
     currentPos := snd ornStep;
     currentStarPos := snd starStep |}.

(** [n] frames with the same [delta]; [clock k] is the elapsed time the
    clock reports at frame [k]. *)
Fixpoint run_frames (memo : Memo) (clock : nat -> R) (delta : R)
    (n : nat) (sc : Scene) : Scene :=
  match n with
  | O => sc
  | S k => useFrame memo (clock k) delta (run_frames memo clock delta k sc)
  end.

(** The chaos level in the store after [n] such frames. *)
Definition chaos_after (memo : Memo) (clock : nat -> R) (delta : R)
    (sc : Scene) (n : nat) : R :=
  chaosLevel (appStore (run_frames memo clock delta n sc)).

(** *** The defensive contract of the specification, for comparison *)

Definition clamp (v lo hi : R) : R := Rmax lo (Rmin v hi).


End LuxuryTree.

(* ================================================================== *)
(** ** The fragment shader [foliageFragmentShader] *)
(* ================================================================== *)

Module Fragment.
Import Glsl.

(** [length] of a two-component vector. *)
Definition length2 (c : vec2) : R := sqrt (v2x c * v2x c + v2y c * v2y c).

(** [pow(x, y)] of the shading language, which is defined for a base that is
    not negative: [exp (y * ln x)] above zero, [0] at zero (for a positive
    exponent). *)
Definition pow (x y : R) : R := if Rlt_dec 0 x then Rpower x y else 0.

(** The distance of the fragment from the centre of its point sprite:
    [length(gl_PointCoord - vec2(0.5))]. *)
Definition sprite_dist (gl_PointCoord : vec2) : R :=
  length2 (Vec2 (v2x gl_PointCoord - 0.5) (v2y gl_PointCoord - 0.5)).

(** [main]: [None] is a discarded fragment, [Some c] the value written to
    [gl_FragColor]. *)
Definition main (vColor : vec3) (vIsLight : R) (gl_PointCoord : vec2)
  : option vec4 :=
  let dist := sprite_dist gl_PointCoord in
  if Rlt_dec 0.5 dist then None
  else
    let finalColor := vColor in
    if Rlt_dec 0.5 vIsLight then
      let glow := 1 - dist * 2 in
      let glow := pow glow 2 in
      let c := adds3 finalColor glow in
      Some (Vec4 (v3x c) (v3y c) (v3z c) 1)
    else
      let strength := 1 - dist * 2 in
      let c := muls3 (muls3 finalColor strength) 2 in
      Some (Vec4 (v3x c) (v3y c) (v3z c) 1).

End Fragment.

(* ================================================================== *)
(** ** Particle data and ornament colours, built once *)
(* ================================================================== *)

Module SceneData.
Import Js MathTs LuxuryTree.

(** 18000 foliage particles. *)
Definition FOLIAGE_COUNT : nat := 18 * 1000.
(** Extra twinkling lights. *)
Definition LIGHTS_COUNT : nat := 800.
Definition TOTAL_PARTICLES : nat := FOLIAGE_COUNT + LIGHTS_COUNT.

(** The colours the component creates, by the name of their variable:
    [#008f4c], [#004225], [#fffdd0], [#ffec8b] for the particles and
    [#ffd700], [#d42426], [#e0e0e0] for the ornaments. *)
Inductive ColorName : Type :=
| emerald | darkGreen | warmWhite | brightGold
| gold | red | silver.

(** The channels of a [THREE.Color]. *)
Record Color : Type := mkColor { col_r : R; col_g : R; col_b : R }.

(** What one round of the particle loop writes at index [i]. *)
Record Particle : Type := mkParticle {
  p_treePos : Vector3;
  p_chaosPos : Vector3;
  p_color : ColorName;
  p_size : R;
  p_isLight : R }.

(** The body of the loop for index [i]. *)
Definition make_particle (i : nat) : Rand Particle :=
  treePos <- getConePoint 14 5.5 (-7) ;;
  chaosPos <- getRandomSpherePoint 18 ;;
  if (FOLIAGE_COUNT <=? i)%nat then
    (* It's a light *)
    u <- Math_random ;;
    let col := if Rlt_dec 0.5 u then warmWhite else brightGold in
    w <- Math_random ;;
    ret {| p_treePos := treePos; p_chaosPos := chaosPos; p_color := col;
           p_size := w * 0.4 + 0.3; p_isLight := 1 |}
  else
    (* Foliage *)
    u <- Math_random ;;
    let col := if Rlt_dec 0.7 u then emerald else darkGreen in
    w <- Math_random ;;
    ret {| p_treePos := treePos; p_chaosPos := chaosPos; p_color := col;
           p_size := w * 0.25 + 0.1; p_isLight := 0 |}.

(** [n] rounds of the loop from index [i] on. *)
Fixpoint particle_loop (n i : nat) : Rand (list Particle) :=
  match n with
  | O => ret []
  | S n' =>
      p <- make_particle i ;;
      rest <- particle_loop n' (S i) ;;
      ret (p :: rest)
  end.

(** The five typed arrays; a position or a colour takes three consecutive
    entries.  (Their 32-bit rounding is not modelled.) *)
Record ParticleData : Type := mkParticleData {
  treePositions : list R;
  chaosPositions : list R;
  colors : list R;
  sizes : list R;
  isLight : list R }.

Definition xyz (v : Vector3) : list R := [vx v; vy v; vz v].

(** The arrays that hold the given particles; [palette] gives the channels
    [THREE.Color] parsed from each colour string. *)
Definition buffers (palette : ColorName -> Color) (ps : list Particle)
  : ParticleData :=
  {| treePositions := flat_map (fun p => xyz (p_treePos p)) ps;
     chaosPositions := flat_map (fun p => xyz (p_chaosPos p)) ps;
     colors := flat_map (fun p => let c := palette (p_color p) in
                                  [col_r c; col_g c; col_b c]) ps;
     sizes := map p_size ps;
     isLight := map p_isLight ps |}.

Definition particles : Rand (list Particle) :=
  particle_loop TOTAL_PARTICLES 0.

Definition particleData (palette : ColorName -> Color) : Rand ParticleData :=
  ps <- particles ;;
  ret (buffers palette ps).

(** The colour of an ornament from its draw [r]. *)
Definition ornament_color (r : R) : ColorName :=
  if Rlt_dec 0.5 r then gold
  else if Rlt_dec 0.2 r then red
  else silver.

Fixpoint color_loop (n : nat) : Rand (list ColorName) :=
  match n with
  | O => ret []
  | S n' =>
      r <- Math_random ;;
      rest <- color_loop n' ;;
      ret (ornament_color r :: rest)
  end.

(** The layout effect: with the instanced mesh mounted it sets one colour
    per ornament, otherwise it does nothing. *)
Definition useLayoutEffect (mounted : bool) : Rand (option (list ColorName)) :=
  if mounted then
    cs <- color_loop ORNAMENT_COUNT ;;
    ret (Some cs)
  else ret None.

End SceneData.

(* ================================================================== *)
(** ** Small concrete scenes *)
(* ================================================================== *)

Import Js MathTs LuxuryTree.

(** A scene with nothing mounted and no ornaments, for concrete runs. *)
Definition bare_memo : Memo :=
  {| ornamentTargets := {| tree := []; chaos := [] |};
     starTargets := {| star_tree := mkVector3 0 7.5 0;
                       star_chaos := mkVector3 0 0 0 |} |}.

Definition bare_scene (level target : R) : Scene :=
  initial_scene {| chaosLevel := level; targetChaosLevel := target |}
                None None None.

(** One ornament and a star, everything mounted. *)
Definition demo_memo : Memo :=
  {| ornamentTargets := {| tree := [mkVector3 1 2 3];
                           chaos := [mkVector3 10 20 30] |};
     starTargets := {| star_tree := mkVector3 0 7.5 0;
                       star_chaos := mkVector3 5 5 5 |} |}.

Definition demo_mesh : StarMesh :=
  {| position := mkVector3 0 0 0; rotation_y := 0; rotation_z := 0 |}.

Definition demo_scene (level target : R) : Scene :=
  initial_scene {| chaosLevel := level; targetChaosLevel := target |}
                (Some {| uProgress := 0; uTime := 0 |})
                (Some demo_mesh) (Some []).


(** Shader inputs: identity matrices, one light and one foliage particle. *)
Definition mat4_identity : Glsl.mat4 :=
  Glsl.Mat4 (Glsl.Vec4 1 0 0 0) (Glsl.Vec4 0 1 0 0)
            (Glsl.Vec4 0 0 1 0) (Glsl.Vec4 0 0 0 1).

Definition demo_uniforms (progress time : R) : Glsl.Uniforms :=
  Glsl.mkUniforms progress time mat4_identity mat4_identity.

Definition demo_particle (isLight : R) : Glsl.Attributes :=
  Glsl.mkAttributes (Glsl.Vec3 1 2 3) (Glsl.Vec3 10 20 30) 0.5
                    (Glsl.Vec3 1 1 1) isLight.

(* ================================================================== *)
(** ** [lerp] on IEEE binary64 values *)
(* ================================================================== *)

Module Binary64.
Import PrimFloat.

(** The same expression as [MathTs.lerp], every operator rounding to
    nearest as a JavaScript [number] does. *)
Definition lerp (start end_ t : float) : float :=
  add (mul start (sub 1%float t)) (mul end_ t).

Definition clamp (v lo hi : float) : float :=
  if ltb v lo then lo else if ltb hi v then hi else v.

(** The smoothing step as the specification words it, for comparison:
    [current + (target - current) * clamp(rate * dt, 0, 1)]. *)
Definition spec_exponentialSmooth (current target dt rate : float) : float :=
  add current (mul (sub target current) (clamp (mul rate dt) 0%float 1%float)).

End Binary64.

(* ================================================================== *)
(** * Properties *)
(* ================================================================== *)

(** ** [lerp] *)

Section LerpFacts.
Variables c t k : R.

Lemma lerp_as_step : lerp c t k = c + (t - c) * k.
Proof. unfold lerp; ring. Qed.


Lemma lerp_zero : lerp c t 0 = c.
Proof. unfold lerp; ring. Qed.

Lemma lerp_one : lerp c t 1 = t.
Proof. unfold lerp; ring. Qed.

Lemma lerp_between :
  0 <= k <= 1 -> Rmin c t <= lerp c t k <= Rmax c t.
Proof.
  intros [Hk0 Hk1]. rewrite lerp_as_step.
  unfold Rmin, Rmax. destruct (Rle_dec c t) as [Hct | Hct]; split; nra.
Qed.

End LerpFacts.




(** C3.  In exact arithmetic a value that already sits on its target stays
    there, whatever the time step and the rate:
    [c * (1 - rate * dt) + c * (rate * dt) = c] over the real numbers.
    (Run on binary64 numbers the two products round separately, and the
    sum can miss [c] in the last place, as the binary64 replay further down
    shows.) *)
Theorem lerp_fixed_point :
  forall c dt rate : R, lerp c c (rate * dt) = c.
Proof. intros c dt rate. unfold lerp. ring. Qed.

(** ** The chaos level over many frames *)

Section ChaosLevelFrames.
Variable memo : Memo.
Variable clock : nat -> R.
Variable delta : R.
Variable sc : Scene.

Let target := targetChaosLevel (appStore sc).

Lemma useFrame_chaosLevel :
  forall e d s,
    chaosLevel (appStore (useFrame memo e d s)) = newChaos_of (appStore s) d.
Proof. reflexivity. Qed.

Lemma useFrame_target :
  forall e d s,
    targetChaosLevel (appStore (useFrame memo e d s))
    = targetChaosLevel (appStore s).
Proof. reflexivity. Qed.

Lemma run_frames_target :
  forall n,
    targetChaosLevel (appStore (run_frames memo clock delta n sc)) = target.
Proof.
  induction n as [| n IH]; cbn [run_frames]; [reflexivity |].
  now rewrite useFrame_target.
Qed.

Lemma chaos_after_succ :
  forall n,
    chaos_after memo clock delta sc (S n)
    = lerp (chaos_after memo clock delta sc n) target (delta * 2.0).
Proof.
  intro n. unfold chaos_after. cbn [run_frames].
  rewrite useFrame_chaosLevel. unfold newChaos_of.
  now rewrite run_frames_target.
Qed.




End ChaosLevelFrames.




(** ** The built-ins on the arguments the samplers give them *)

Lemma Rpower_lt_one : forall x e, 0 < x < 1 -> 0 < e -> 0 < Rpower x e < 1.
Proof.
  intros x e [Hx0 Hx1] He. unfold Rpower. split; [apply exp_pos |].
  rewrite <- exp_0. apply exp_increasing.
  assert (Hln : ln x < 0) by (rewrite <- ln_1; now apply ln_increasing).
  nra.
Qed.

Lemma Math_cbrt_unit : forall u, 0 <= u < 1 -> 0 <= Math_cbrt u < 1.
Proof.
  intros u [Hu0 Hu1]. unfold Math_cbrt.
  destruct (Rlt_dec 0 u) as [Hpos | Hnpos].
  - destruct (Rpower_lt_one u (/ 3)); lra.
  - destruct (Rlt_dec u 0); lra.
Qed.

(** [Math_cbrt] is a cube root. *)
Lemma Math_cbrt_cube : forall x, Math_cbrt x ^ 3 = x.
Proof.
  assert (Hcube : forall y, 0 < y -> Rpower y (/ 3) ^ 3 = y).
  { intros y Hy. rewrite <- Rpower_pow by (unfold Rpower; apply exp_pos).
    rewrite Rpower_mult.
    replace (/ 3 * INR 3) with 1 by (simpl; field).
    now apply Rpower_1. }
  intro x. unfold Math_cbrt.
  destruct (Rlt_dec 0 x) as [Hpos | Hnpos]; [now apply Hcube |].
  destruct (Rlt_dec x 0) as [Hneg | Hnneg].
  - replace ((- Rpower (- x) (/ 3)) ^ 3) with (- (Rpower (- x) (/ 3) ^ 3))
      by ring.
    rewrite Hcube by lra. ring.
  - replace x with 0 by lra. ring.
Qed.

Lemma Math_pow_unit :
  forall b e, 0 < b <= 1 -> 0 < e -> 0 < Math_pow b e <= 1.
Proof.
  intros b e [Hb0 Hb1] He. unfold Math_pow.
  destruct (Rlt_dec 0 b) as [_ | Hn]; [| lra].
  destruct (Req_dec b 1) as [-> | Hne].
  - unfold Rpower. rewrite ln_1, Rmult_0_r, exp_0. lra.
  - destruct (Rpower_lt_one b e); lra.
Qed.

Lemma sqrt_polar : forall r a, 0 <= r ->
  sqrt (r * cos a * (r * cos a) + r * sin a * (r * sin a)) = r.
Proof.
  intros r a Hr.
  pose proof (sin2_cos2 a) as H. unfold Rsqr in H.
  replace (r * cos a * (r * cos a) + r * sin a * (r * sin a))
    with (r * r * (sin a * sin a + cos a * cos a)) by ring.
  rewrite H, Rmult_1_r. now apply sqrt_square.
Qed.

Lemma unit_draws_advance : forall k s, unit_draws s -> unit_draws (advance k s).
Proof. intros k s H n. apply H. Qed.

(** ** The sphere sampler *)

(** C4.  For a positive radius and draws in [0, 1), [getRandomSpherePoint]
    takes three draws [u1], [u2], [u3], forms [theta = 2 PI u1],
    [phi = acos (2 u2 - 1)] and the radial distance [radius * cbrt u3], and
    returns their Cartesian point, whose Euclidean norm is that radial
    distance and hence at most the radius. *)
Theorem getRandomSpherePoint_in_ball :
  forall (radius : R) (s : Rng),
    0 < radius -> unit_draws s ->
    let u1 := s 0%nat in
    let u2 := s 1%nat in
    let u3 := s 2%nat in
    let theta := 2 * PI * u1 in
    let phi := acos (2 * u2 - 1) in
    let rho := radius * Math_cbrt u3 in
    let p := fst (getRandomSpherePoint radius s) in
    p = mkVector3 (rho * sin phi * cos theta)
                  (rho * sin phi * sin theta)
                  (rho * cos phi)
    /\ snd (getRandomSpherePoint radius s) = advance 3 s
    /\ 0 <= theta < 2 * PI /\ 0 <= phi <= PI
    /\ Vector3_length p = rho
    /\ Vector3_length p <= radius.
Proof.
  intros radius s Hr Hs u1 u2 u3 theta phi rho p.
  assert (Hp : p = mkVector3 (rho * sin phi * cos theta)
                             (rho * sin phi * sin theta)
                             (rho * cos phi)).
  { unfold p, getRandomSpherePoint, bind, ret, Math_random; simpl.
    unfold Math_sin, Math_cos, Math_acos, Math_PI.
    fold u1 u2 u3 theta phi.
    f_equal; unfold rho; ring. }
  destruct (Math_cbrt_unit u3 (Hs 2%nat)) as [Hc0 Hc1].
  assert (Hrho : 0 <= rho <= radius) by (unfold rho; split; nra).
  assert (Hlen : Vector3_length p = rho).
  { rewrite Hp. unfold Vector3_length; simpl.
    pose proof (sin2_cos2 theta) as Ht. unfold Rsqr in Ht.
    pose proof (sin2_cos2 phi) as Hf. unfold Rsqr in Hf.
    replace (rho * sin phi * cos theta * (rho * sin phi * cos theta)
             + rho * sin phi * sin theta * (rho * sin phi * sin theta)
             + rho * cos phi * (rho * cos phi))
      with (rho * rho * (sin phi * sin phi
                         * (sin theta * sin theta + cos theta * cos theta)
                         + cos phi * cos phi)) by ring.
    rewrite Ht, Rmult_1_r, Hf, Rmult_1_r. apply sqrt_square. lra. }
  pose proof PI_RGT_0 as Hpi.
  pose proof (Hs 0%nat) as H0. fold u1 in H0.
  repeat split; try assumption.
  - unfold theta. nra.
  - unfold theta. nra.
  - unfold phi. apply acos_bound.
  - unfold phi. apply acos_bound.
  - rewrite Hlen. lra.
Qed.

Lemma getRandomSpherePoint_in_ball_witness :
  Vector3_length (fst (getRandomSpherePoint 18 (fun _ => 1 / 2))) <= 18.
Proof.
  apply (getRandomSpherePoint_in_ball 18 (fun _ => 1 / 2)).
  - lra.
  - intro n. lra.
Defined.

(** ** The cone sampler *)

(** The cone point in polar form: its height is the first draw scaled, its
    distance from the axis the product of base radius, taper and radial
    fraction, with the taper in (0, 1]. *)
Lemma getConePoint_polar :
  forall (height radiusBase yOffset : R) (s : Rng),
    0 < height -> 0 < radiusBase -> unit_draws s ->
    let p := fst (getConePoint height radiusBase yOffset s) in
    let taper := Math_pow (1 - s 0%nat) 0.8 in
    vy p = s 0%nat * height + yOffset
    /\ 1 - (vy p - yOffset) / height = 1 - s 0%nat
    /\ 0 < taper <= 1
    /\ axis_distance p = radiusBase * taper * (0.4 + s 2%nat * 0.6).
Proof.
  intros height radiusBase yOffset s Hh Hr Hs p taper.
  pose proof (Hs 0%nat) as H0. pose proof (Hs 2%nat) as H2.
  assert (Hy : vy p = s 0%nat * height + yOffset) by reflexivity.
  assert (Hb : 1 - s 0%nat * height / height = 1 - s 0%nat) by (field; lra).
  assert (Ht : 0 < taper <= 1) by (apply Math_pow_unit; lra).
  split; [exact Hy | split; [| split; [exact Ht |]]].
  - rewrite Hy. field. lra.
  - unfold axis_distance, p, getConePoint, bind, ret, Math_random; simpl.
    unfold Math_cos, Math_sin. rewrite Hb. fold taper.
    apply sqrt_polar.
    apply Rmult_le_pos; [apply Rmult_le_pos |]; lra.
Qed.

(** C5.  For a positive height and base radius and draws in [0, 1), the
    point of [getConePoint] has its height between [yOffset] and
    [yOffset + height]; its distance from the axis is the base radius times
    the taper [(1 - (y - yOffset) / height) ^ 0.8] times the radial fraction
    [0.4 + 0.6 u3], which lies in [0.4, 1.0); so the distance is at most the
    tapered radius, itself at most the base radius. *)
Theorem getConePoint_in_cone :
  forall (height radiusBase yOffset : R) (s : Rng),
    0 < height -> 0 < radiusBase -> unit_draws s ->
    let p := fst (getConePoint height radiusBase yOffset s) in
    let fraction := 0.4 + s 2%nat * 0.6 in
    let taper := Math_pow (1 - (vy p - yOffset) / height) 0.8 in
    vy p = s 0%nat * height + yOffset
    /\ yOffset <= vy p <= yOffset + height
    /\ 0.4 <= fraction < 1.0
    /\ axis_distance p = radiusBase * taper * fraction
    /\ axis_distance p <= radiusBase * taper
    /\ radiusBase * taper <= radiusBase.
Proof.
  intros height radiusBase yOffset s Hh Hr Hs p fraction taper.
  destruct (getConePoint_polar height radiusBase yOffset s Hh Hr Hs)
    as (Hy & Hbase & Ht & Hd).
  fold p in Hy, Hbase, Hd. fold fraction in Hd.
  pose proof (Hs 0%nat) as H0. pose proof (Hs 2%nat) as H2.
  assert (Htaper : taper = Math_pow (1 - s 0%nat) 0.8)
    by (unfold taper; now rewrite Hbase).
  rewrite <- Htaper in Ht, Hd.
  assert (Hf : 0.4 <= fraction < 1.0) by (unfold fraction; lra).
  assert (Hyh : 0 <= s 0%nat * height <= height) by (split; nra).
  assert (Hrt : 0 < radiusBase * taper) by (apply Rmult_lt_0_compat; lra).
  split; [exact Hy |].
  split; [rewrite Hy; lra |].
  split; [exact Hf |].
  split; [exact Hd |].
  split; [rewrite Hd; nra | nra].
Qed.

Lemma getConePoint_in_cone_witness :
  let p := fst (getConePoint 14 5.5 (-7) (fun _ => 1 / 2)) in
  -7 <= vy p <= -7 + 14 /\ axis_distance p <= 5.5.
Proof.
  intro p.
  destruct (getConePoint_in_cone 14 5.5 (-7) (fun _ => 1 / 2))
    as (_ & Hy & _ & _ & Hd & Hb).
  - lra.
  - lra.
  - intro n. lra.
  - split; [exact Hy | exact (Rle_trans _ _ _ Hd Hb)].
Defined.

(** ** The frame callback and the defensive contract *)




(** ** The vertex shader *)

Import Glsl.

Lemma mix_is_lerp : forall x y a, mix x y a = lerp x y a.
Proof. reflexivity. Qed.

Lemma mix3_zero : forall x y, mix3 x y 0 = x.
Proof.
  intros [x1 x2 x3] [y1 y2 y3]. unfold mix3, zip3, mix; simpl.
  f_equal; ring.
Qed.

Lemma mix3_one : forall x y, mix3 x y 1 = y.
Proof.
  intros [x1 x2 x3] [y1 y2 y3]. unfold mix3, zip3, mix; simpl.
  f_equal; ring.
Qed.

Lemma adds3_zero : forall v, adds3 v 0 = v.
Proof.
  intros [v1 v2 v3]. unfold adds3, add3, zip3, splat3; simpl.
  f_equal; ring.
Qed.

(** C7.  For a light particle ([aIsLight] above one half, as the value 1.0
    the builder stores) the size that enters [gl_PointSize] is the fixed
    size times [1 + 0.5 * (1 + sin (uTime * 3 + pos.x * 10)) * 1.5], which
    is the shader's [aSize * (1 + twinkle * 1.5)]; for any other particle it
    is the fixed size, without modulation. *)
Theorem twinkle_size_multiplier :
  forall (u : Uniforms) (a : Attributes),
    let pos := displaced_pos u a in
    let mvPosition :=
      mat4_mul (modelViewMatrix u) (Vec4 (v3x pos) (v3y pos) (v3z pos) 1) in
    (0.5 < aIsLight a ->
       baseSize u a
       = aSize a
         * (1 + (sin (Glsl.uTime u * 3 + v3x pos * 10) * 0.5 + 0.5) * 1.5)
       /\ baseSize u a
          = aSize a
            * (1 + 0.5 * (1 + sin (Glsl.uTime u * 3 + v3x pos * 10)) * 1.5))
    /\ (aIsLight a <= 0.5 -> baseSize u a = aSize a)
    /\ gl_PointSize (main u a) = baseSize u a * (300 / - v4z mvPosition).
Proof.
  intros u a pos mvPosition. split; [| split].
  - intro Hlight. unfold baseSize.
    destruct (Rlt_dec 0.5 (aIsLight a)) as [_ | Hn]; [| contradiction].
    unfold twinkle. fold pos. split; [reflexivity | ring].
  - intro Hfoliage. unfold baseSize.
    destruct (Rlt_dec 0.5 (aIsLight a)) as [Hl | _]; [lra | reflexivity].
  - reflexivity.
Qed.

Lemma wind_offset_factored :
  forall (u : Uniforms) (a : Attributes),
    wind_offset u a = wind_noise u a * (0.2 * (1 - Glsl.uProgress u)).
Proof. intros u a. unfold wind_offset. apply Rmult_assoc. Qed.

Lemma fades_at_full_progress : forall n : R, n * (0.2 * (1 - 1)) = 0.
Proof. intro n. ring. Qed.

(** C9.  The position of a vertex is the mix of its tree and chaos
    positions by the progress uniform, component by component the [lerp] of
    the two, plus the noise value times [0.2 * (1 - uProgress)] on every
    component.  At progress 0 the mix is the tree position, whatever the
    chaos position is; at progress 1 the added term is zero and the position
    is the chaos position. *)
Theorem vertex_position_blend :
  forall (u : Uniforms) (a : Attributes),
    mixed_pos u a
    = Vec3 (lerp (v3x (aTreePos a)) (v3x (aChaosPos a)) (Glsl.uProgress u))
           (lerp (v3y (aTreePos a)) (v3y (aChaosPos a)) (Glsl.uProgress u))
           (lerp (v3z (aTreePos a)) (v3z (aChaosPos a)) (Glsl.uProgress u))
    /\ wind_noise u a
       = snoise (adds3 (muls3 (mixed_pos u a) 0.5) (Glsl.uTime u * 0.5))
    /\ displaced_pos u a
       = adds3 (mixed_pos u a)
               (wind_noise u a * (0.2 * (1 - Glsl.uProgress u)))
    /\ (Glsl.uProgress u = 0 -> mixed_pos u a = aTreePos a)
    /\ (Glsl.uProgress u = 1 ->
        wind_noise u a * (0.2 * (1 - Glsl.uProgress u)) = 0
        /\ displaced_pos u a = aChaosPos a).
Proof.
  intros u a.
  split; [reflexivity | split; [reflexivity | split; [| split]]].
  - unfold displaced_pos. now rewrite wind_offset_factored.
  - intro H0. unfold mixed_pos. rewrite H0. apply mix3_zero.
  - intro H1.
    assert (Hz : wind_noise u a * (0.2 * (1 - Glsl.uProgress u)) = 0).
    { rewrite H1. apply fades_at_full_progress. }
    split; [exact Hz |].
    unfold displaced_pos. rewrite wind_offset_factored, Hz, adds3_zero.
    unfold mixed_pos. rewrite H1. apply mix3_one.
Qed.

Lemma twinkle_size_multiplier_witness :
  baseSize (demo_uniforms 0 0) (demo_particle 1)
  = aSize (demo_particle 1)
    * (1 + 0.5 * (1 + sin (Glsl.uTime (demo_uniforms 0 0) * 3
                           + v3x (displaced_pos (demo_uniforms 0 0)
                                                (demo_particle 1)) * 10))
           * 1.5)
  /\ baseSize (demo_uniforms 0 0) (demo_particle 0) = aSize (demo_particle 0).
Proof.
  split.
  - apply (twinkle_size_multiplier (demo_uniforms 0 0) (demo_particle 1)).
    simpl. lra.
  - apply (twinkle_size_multiplier (demo_uniforms 0 0) (demo_particle 0)).
    simpl. lra.
Defined.

Lemma vertex_position_blend_witness :
  mixed_pos (demo_uniforms 0 0) (demo_particle 1) = Vec3 1 2 3
  /\ displaced_pos (demo_uniforms 1 0) (demo_particle 1) = Vec3 10 20 30.
Proof.
  split.
  - apply (vertex_position_blend (demo_uniforms 0 0) (demo_particle 1)).
    reflexivity.
  - apply (vertex_position_blend (demo_uniforms 1 0) (demo_particle 1)).
    reflexivity.
Defined.

(** ** Ornaments and star in a frame *)


(** From the freshly built list of positions every round starts at the
    origin, and there are [n] rounds at most. *)
Lemma update_ornaments_from_origin :
  forall (n : nat) (treeArr chaosArr : list Vector3) (k d : R),
    map fst (update_ornaments treeArr chaosArr
               (map (fun _ : R => Vector3_new) (repeat 0 n)) k d)
    = map (fun tc => follow (mkVector3 0 0 0)
                            (blended_target (fst tc) (snd tc) k) d)
          (firstn n (combine treeArr chaosArr)).
Proof.
  induction n as [| n IH]; intros treeArr chaosArr k d.
  - destruct treeArr as [| tPos treeArr]; [reflexivity |].
    destruct chaosArr; reflexivity.
  - destruct treeArr as [| tPos treeArr]; [reflexivity |].
    destruct chaosArr as [| cPos chaosArr]; [reflexivity |].
    simpl. f_equal. apply IH.
Qed.

Lemma follow_from_origin :
  forall (target : Vector3) (delta : R),
    follow (mkVector3 0 0 0) target delta
    = mkVector3 (vx target * (delta * 4.0)) (vy target * (delta * 4.0))
                (vz target * (delta * 4.0)).
Proof.
  intros [tx ty tz] delta. unfold follow, lerp; simpl. f_equal; ring.
Qed.



(** The constructed targets fill both arrays with [ORNAMENT_COUNT] entries,
    so the ornament loop of a frame visits every one of them. *)
Lemma push_targets_length :
  forall (n : nat) (treeArr chaosArr : list Vector3) (s : Rng),
    length (fst (fst (push_targets n treeArr chaosArr s)))
    = (length treeArr + n)%nat
    /\ length (snd (fst (push_targets n treeArr chaosArr s)))
       = (length chaosArr + n)%nat.
Proof.
  induction n as [| n IH]; intros treeArr chaosArr s.
  - simpl. lia.
  - cbn [push_targets]. unfold bind.
    destruct (getConePoint 13.5 5.2 (-6.8) s) as [t s1].
    destruct (getRandomSpherePoint 22 s1) as [c s2].
    destruct (IH (treeArr ++ [t]) (chaosArr ++ [c]) s2) as [Ht Hc].
    rewrite Ht, Hc, !length_app. simpl. lia.
Qed.

Lemma build_targets_lengths :
  forall s : Rng,
    let memo := fst (build_targets s) in
    length (tree (ornamentTargets memo)) = ORNAMENT_COUNT
    /\ length (chaos (ornamentTargets memo)) = ORNAMENT_COUNT.
Proof.
  intro s. unfold build_targets, bind.
  pose proof (push_targets_length ORNAMENT_COUNT [] [] s) as [Ht Hc].
  destruct (push_targets ORNAMENT_COUNT [] [] s) as [arrs s1].
  destruct (getRandomSpherePoint 25 s1) as [starChaos s2].
  cbn [fst snd tree chaos ornamentTargets] in *. split; assumption.
Qed.

(** A cone point is never on the axis: its distance from the axis is at
    least 0.4 times the tapered radius, which is positive. *)
Lemma getConePoint_off_axis :
  forall (height radiusBase yOffset : R) (s : Rng),
    0 < height -> 0 < radiusBase -> unit_draws s ->
    fst (getConePoint height radiusBase yOffset s) <> mkVector3 0 0 0
    /\ snd (getConePoint height radiusBase yOffset s) = advance 3 s.
Proof.
  intros height radiusBase yOffset s Hh Hr Hs. split; [| reflexivity].
  destruct (getConePoint_polar height radiusBase yOffset s Hh Hr Hs)
    as (_ & _ & Ht & Hd).
  pose proof (Hs 2%nat) as H2.
  intro Hp. rewrite Hp in Hd. unfold axis_distance in Hd.
  cbn [vx vz] in Hd.
  replace (0 * 0 + 0 * 0) with 0 in Hd by ring. rewrite sqrt_0 in Hd.
  assert (Hpos : 0 < radiusBase * Math_pow (1 - s 0%nat) 0.8
                     * (0.4 + s 2%nat * 0.6)).
  { apply Rmult_lt_0_compat; [apply Rmult_lt_0_compat |]; lra. }
  lra.
Qed.

Lemma push_targets_off_origin :
  forall (n : nat) (treeArr chaosArr : list Vector3) (s : Rng),
    unit_draws s ->
    Forall (fun t => t <> mkVector3 0 0 0) treeArr ->
    Forall (fun t => t <> mkVector3 0 0 0)
           (fst (fst (push_targets n treeArr chaosArr s))).
Proof.
  induction n as [| n IH]; intros treeArr chaosArr s Hs Hall;
    [exact Hall |].
  cbn [push_targets]. unfold bind.
  destruct (getConePoint_off_axis 13.5 5.2 (-6.8) s) as [Hne Hst];
    [lra | lra | exact Hs |].
  destruct (getConePoint 13.5 5.2 (-6.8) s) as [t s1].
  cbn [fst snd] in Hne, Hst. subst s1.
  assert (Hsph : snd (getRandomSpherePoint 22 (advance 3 s))
                 = advance 3 (advance 3 s)) by reflexivity.
  destruct (getRandomSpherePoint 22 (advance 3 s)) as [c s2].
  cbn [snd] in Hsph. subst s2.
  apply IH.
  - now do 2 apply unit_draws_advance.
  - apply Forall_app. split; [exact Hall | now constructor].
Qed.

(** C10.  Before the first frame every entry of [currentPos] (there are
    [ORNAMENT_COUNT] of them) and [currentStarPos] are the zero vector,
    while the star's tree target and, for draws in [0, 1), every ornament's
    tree target are other points.  The first frame therefore moves
    the star and each ornament from the origin toward its blended target:
    each lands on that target scaled by [delta * 4.0]. *)
Theorem current_positions_start_at_origin :
  forall (st : AppStore) (shader : option ShaderUniforms) (mesh : StarMesh)
         (instances : list Instance) (memo : Memo) (elapsedTime delta : R),
    let sc := initial_scene st shader (Some mesh) (Some instances) in
    let sc' := useFrame memo elapsedTime delta sc in
    let newChaos := chaosLevel (appStore sc') in
    let from_origin (tPos cPos : Vector3) :=
      follow (mkVector3 0 0 0) (blended_target tPos cPos newChaos) delta in
    length (currentPos sc) = ORNAMENT_COUNT
    /\ Forall (fun p => p = mkVector3 0 0 0) (currentPos sc)
    /\ currentStarPos sc = mkVector3 0 0 0
    /\ (forall s : Rng,
          star_tree (starTargets (fst (build_targets s))) = mkVector3 0 7.5 0
          /\ star_tree (starTargets (fst (build_targets s)))
             <> currentStarPos sc)
    /\ (forall s : Rng,
          unit_draws s ->
          let built := ornamentTargets (fst (build_targets s)) in
          length (tree built) = length (currentPos sc)
          /\ Forall (fun t => t <> mkVector3 0 0 0) (tree built))
    /\ currentStarPos sc'
       = from_origin (star_tree (starTargets memo))
                     (star_chaos (starTargets memo))
    /\ currentPos sc'
       = map (fun tc => from_origin (fst tc) (snd tc))
             (firstn ORNAMENT_COUNT
                (combine (tree (ornamentTargets memo))
                         (chaos (ornamentTargets memo))))
    /\ (forall tPos cPos,
          from_origin tPos cPos
          = let target := blended_target tPos cPos newChaos in
            mkVector3 (vx target * (delta * 4.0)) (vy target * (delta * 4.0))
                      (vz target * (delta * 4.0))).
Proof.
  intros st shader mesh instances memo elapsedTime delta sc sc' newChaos
         from_origin.
  assert (Hstar : forall s : Rng,
             star_tree (starTargets (fst (build_targets s)))
             = mkVector3 0 7.5 0).
  { intro s. unfold build_targets, bind.
    destruct (push_targets ORNAMENT_COUNT [] [] s) as [arrs s1].
    destruct (getRandomSpherePoint 25 s1) as [starChaos s2].
    reflexivity. }
  assert (Hlen : length (currentPos sc) = ORNAMENT_COUNT).
  { unfold sc, initial_scene, currentPos_init; cbn [currentPos].
    now rewrite length_map, repeat_length. }
  split; [| split; [| split; [| split; [| split; [| split; [| split]]]]]].
  - exact Hlen.
  - unfold sc, initial_scene, currentPos_init; cbn [currentPos].
    apply Forall_forall. intros p Hin.
    apply in_map_iff in Hin. destruct Hin as (z & Hz & _). now rewrite <- Hz.
  - reflexivity.
  - intro s. split; [apply Hstar |].
    rewrite Hstar. cbn. intro H. injection H as H. lra.
  - intros s Hs built. split.
    + rewrite Hlen. destruct (build_targets_lengths s) as [Ht _]. exact Ht.
    + unfold built, build_targets, bind.
      pose proof (push_targets_off_origin ORNAMENT_COUNT [] [] s Hs
                    (Forall_nil _)) as Hall.
      destruct (push_targets ORNAMENT_COUNT [] [] s) as [arrs s1].
      destruct (getRandomSpherePoint 25 s1) as [starChaos s2].
      exact Hall.
  - reflexivity.
  - unfold sc', useFrame, sc, initial_scene. cbn [currentPos ornamentsRef snd].
    unfold currentPos_init. apply update_ornaments_from_origin.
  - intros tPos cPos. unfold from_origin. apply follow_from_origin.
Qed.

Lemma current_positions_start_at_origin_witness :
  Forall (fun t => t <> mkVector3 0 0 0)
         (tree (ornamentTargets (fst (build_targets (fun _ => 1 / 2))))).
Proof.
  pose proof (current_positions_start_at_origin
                {| chaosLevel := 0; targetChaosLevel := 1 |} None demo_mesh []
                demo_memo 0 (1 / 60)) as H.
  cbv zeta in H. destruct H as (_ & _ & _ & _ & H & _).
  apply (H (fun _ => 1 / 2)). intro n. lra.
Defined.

(** The global blend of a frame stays between the stored level and the
    target when [delta * 2.0] is between 0 and 1. *)
Lemma useFrame_chaosLevel_between :
  forall (memo : Memo) (elapsedTime delta : R) (sc : Scene),
    0 <= delta * 2.0 <= 1 ->
    Rmin (chaosLevel (appStore sc)) (targetChaosLevel (appStore sc))
    <= chaosLevel (appStore (useFrame memo elapsedTime delta sc))
    <= Rmax (chaosLevel (appStore sc)) (targetChaosLevel (appStore sc)).
Proof.
  intros memo elapsedTime delta sc H.
  cbn [useFrame appStore setChaosLevel chaosLevel].
  now apply lerp_between.
Qed.

(** ** Binary64 replay of [lerp] *)

Section Binary64Replay.
Import PrimFloat.
#[local] Set Warnings "-inexact-float".
Local Open Scope float_scope.

(** The scale endpoints are exact in binary64 as well. *)
Example binary64_scale_endpoints :
  PrimFloat.eqb (Binary64.lerp 0.35 0.1 0) 0.35 = true
  /\ PrimFloat.eqb (Binary64.lerp 0.35 0.1 1) 0.1 = true.
Proof. split; reflexivity. Qed.

(** One step with [dt = 0.5] reaches the target, one with [dt = 0.1]
    covers a fifth of the way, one with [dt = 1] lands on 2. *)
Example binary64_blend_steps :
  PrimFloat.eqb (Binary64.lerp 0 1 (0.5 * 2.0)) 1 = true
  /\ PrimFloat.eqb (Binary64.lerp 0 1 (0.1 * 2.0)) 0.2 = true
  /\ PrimFloat.eqb (Binary64.lerp 0 1 (1 * 2.0)) 2 = true.
Proof. repeat split; reflexivity. Qed.

(** Rounding shows at the fixed point: the two products of
    [0.1 * (1 - 0.3) + 0.1 * 0.3] round separately and their sum is the
    binary64 value just below 0.1.  The identity [lerp c c t = c] is one
    of exact arithmetic. *)
Example binary64_fixed_point_rounds :
  PrimFloat.eqb (Binary64.lerp 0.1 0.1 0.3) 0.1 = false
  /\ PrimFloat.eqb (Binary64.lerp 0.1 0.1 0.3) 0.09999999999999999 = true
  /\ PrimFloat.eqb (Binary64.lerp 0.1 0.1 0) 0.1 = true.
Proof. repeat split; reflexivity. Qed.

(** C3, as stated, fails on the numbers the program runs on.  With
    [c = 0.1], [rate = 2.0] and [dt = 0.15] the factor is the binary64 value
    0.3, and [0.1 * (1 - 0.3) + 0.1 * 0.3] evaluates to
    0.09999999999999999, which is not [c].  The step as the specification
    words it, [c + (c - c) * clamp(rate * dt, 0, 1)], returns [c] at the
    same input. *)
Lemma lerp_fixed_point_rounds_in_binary64 :
  PrimFloat.eqb (2.0 * 0.15) 0.3 = true
  /\ PrimFloat.eqb (Binary64.lerp 0.1 0.1 (2.0 * 0.15)) 0.1 = false
  /\ PrimFloat.eqb (Binary64.lerp 0.1 0.1 (2.0 * 0.15)) 0.09999999999999999
     = true
  /\ PrimFloat.eqb (Binary64.spec_exponentialSmooth 0.1 0.1 0.15 2.0) 0.1
     = true.
Proof. repeat split; reflexivity. Qed.

End Binary64Replay.

(* ================================================================== *)
(** * Further properties of the samplers *)
(* ================================================================== *)

(** The sphere point in polar form, for a radius that is not negative. *)
Lemma getRandomSpherePoint_polar :
  forall (radius : R) (s : Rng),
    0 <= radius -> unit_draws s ->
    let p := fst (getRandomSpherePoint radius s) in
    let rho := Math_cbrt (s 2%nat) * radius in
    0 <= rho <= radius
    /\ vz p = rho * (2 * s 1%nat - 1)
    /\ vx p * vx p + vy p * vy p
       = rho * rho * (1 - (2 * s 1%nat - 1) * (2 * s 1%nat - 1))
    /\ Vector3_length p = rho.
Proof.
  intros radius s Hr Hs p rho.
  pose proof (Hs 1%nat) as H1.
  destruct (Math_cbrt_unit (s 2%nat) (Hs 2%nat)) as [Hc0 Hc1].
  assert (Hrho : 0 <= rho <= radius) by (unfold rho; split; nra).
  set (phi := acos (2 * s 1%nat - 1)).
  set (theta := 2 * PI * s 0%nat).
  assert (Hcos : cos phi = 2 * s 1%nat - 1) by (apply cos_acos; lra).
  assert (Hp : p = mkVector3 (rho * sin phi * cos theta)
                             (rho * sin phi * sin theta)
                             (rho * cos phi)) by reflexivity.
  pose proof (sin2_cos2 theta) as Ht. unfold Rsqr in Ht.
  pose proof (sin2_cos2 phi) as Hf. unfold Rsqr in Hf.
  assert (Hxy : vx p * vx p + vy p * vy p
                = rho * rho * (1 - cos phi * cos phi)).
  { rewrite Hp; cbn [vx vy].
    replace (rho * sin phi * cos theta * (rho * sin phi * cos theta)
             + rho * sin phi * sin theta * (rho * sin phi * sin theta))
      with (rho * rho * (sin phi * sin phi)
            * (sin theta * sin theta + cos theta * cos theta)) by ring.
    rewrite Ht, Rmult_1_r. f_equal. lra. }
  split; [exact Hrho | split; [| split]].
  - rewrite Hp; cbn [vz]. now rewrite Hcos.
  - rewrite Hxy. now rewrite Hcos.
  - unfold Vector3_length. rewrite Hxy.
    replace (rho * rho * (1 - cos phi * cos phi) + vz p * vz p)
      with (rho * rho).
    + apply sqrt_square. lra.
    + rewrite Hp; cbn [vz]. ring.
Qed.





(** X3.  The cone has a hollow core: a cone point is at least 0.4 times the
    tapered radius away from the axis, so it never lies on the axis, and it
    is strictly below the apex height. *)
Theorem cone_point_hollow_core :
  forall (height radiusBase yOffset : R) (s : Rng),
    0 < height -> 0 < radiusBase -> unit_draws s ->
    let p := fst (getConePoint height radiusBase yOffset s) in
    let taper := Math_pow (1 - (vy p - yOffset) / height) 0.8 in
    0.4 * (radiusBase * taper) <= axis_distance p
    /\ 0 < axis_distance p
    /\ vy p < yOffset + height.
Proof.
  intros height radiusBase yOffset s Hh Hr Hs p taper.
  destruct (getConePoint_polar height radiusBase yOffset s Hh Hr Hs)
    as (Hy & Hbase & Ht & Hd).
  fold p in Hy, Hbase, Hd.
  assert (Htaper : taper = Math_pow (1 - s 0%nat) 0.8)
    by (unfold taper; now rewrite Hbase).
  rewrite <- Htaper in Ht, Hd.
  pose proof (Hs 0%nat) as H0. pose proof (Hs 2%nat) as H2.
  assert (Hrt : 0 < radiusBase * taper) by (apply Rmult_lt_0_compat; lra).
  split; [| split].
  - rewrite Hd. nra.
  - rewrite Hd. nra.
  - rewrite Hy. nra.
Qed.

Lemma cone_point_hollow_core_witness :
  0 < axis_distance (fst (getConePoint 14 5.5 (-7) (fun _ => 1 / 2))).
Proof.
  apply (cone_point_hollow_core 14 5.5 (-7) (fun _ => 1 / 2)).
  - lra.
  - lra.
  - intro n. lra.
Defined.

(** ** The targets built for the ornaments and the star *)

Lemma getConePoint_stream :
  forall (height radiusBase yOffset : R) (s : Rng),
    snd (getConePoint height radiusBase yOffset s) = advance 3 s.
Proof. reflexivity. Qed.

Lemma getRandomSpherePoint_stream :
  forall (radius : R) (s : Rng),
    snd (getRandomSpherePoint radius s) = advance 3 s.
Proof. reflexivity. Qed.

(** One round of the target loop takes six draws. *)
Lemma push_targets_stream :
  forall (n : nat) (treeArr chaosArr : list Vector3) (s : Rng) (k : nat),
    snd (push_targets n treeArr chaosArr s) k = s (6 * n + k)%nat.
Proof.
  induction n as [| n IH]; intros treeArr chaosArr s k; [reflexivity |].
  cbn [push_targets]. unfold bind.
  pose proof (getConePoint_stream 13.5 5.2 (-6.8) s) as Hc.
  destruct (getConePoint 13.5 5.2 (-6.8) s) as [t s1].
  cbn [snd] in Hc. subst s1.
  pose proof (getRandomSpherePoint_stream 22 (advance 3 s)) as Hs.
  destruct (getRandomSpherePoint 22 (advance 3 s)) as [c s2].
  cbn [snd] in Hs. subst s2.
  rewrite IH. unfold advance. f_equal. lia.
Qed.

(** Whatever holds of every cone point and of every sphere point drawn by
    the loop holds of the arrays it returns. *)
Lemma push_targets_inv :
  forall (P Q : Vector3 -> Prop),
    (forall s, unit_draws s -> P (fst (getConePoint 13.5 5.2 (-6.8) s))) ->
    (forall s, unit_draws s -> Q (fst (getRandomSpherePoint 22 s))) ->
    forall (n : nat) (treeArr chaosArr : list Vector3) (s : Rng),
      unit_draws s -> Forall P treeArr -> Forall Q chaosArr ->
      Forall P (fst (fst (push_targets n treeArr chaosArr s)))
      /\ Forall Q (snd (fst (push_targets n treeArr chaosArr s)))
      /\ unit_draws (snd (push_targets n treeArr chaosArr s)).
Proof.
  intros P Q HP HQ.
  induction n as [| n IH]; intros treeArr chaosArr s Hs Htree Hchaos.
  - cbn. auto.
  - cbn [push_targets]. unfold bind.
    pose proof (HP s Hs) as Ht.
    pose proof (getConePoint_stream 13.5 5.2 (-6.8) s) as Hc.
    destruct (getConePoint 13.5 5.2 (-6.8) s) as [t s1].
    cbn [fst snd] in Ht, Hc. subst s1.
    pose proof (HQ (advance 3 s) (unit_draws_advance 3 s Hs)) as Hq.
    pose proof (getRandomSpherePoint_stream 22 (advance 3 s)) as Hst.
    destruct (getRandomSpherePoint 22 (advance 3 s)) as [c s2].
    cbn [fst snd] in Hq, Hst. subst s2.
    apply IH.
    + now do 2 apply unit_draws_advance.
    + apply Forall_app. split; [exact Htree | now constructor].
    + apply Forall_app. split; [exact Hchaos | now constructor].
Qed.

(** X4.  Building the targets takes exactly six draws per ornament and
    three more for the star: the stream left over is the original one
    advanced by [6 * ORNAMENT_COUNT + 3]. *)
Theorem build_targets_draw_count :
  forall (s : Rng) (k : nat),
    snd (build_targets s) k = s (6 * ORNAMENT_COUNT + 3 + k)%nat.
Proof.
  intros s k. unfold build_targets, bind.
  pose proof (push_targets_stream ORNAMENT_COUNT [] [] s) as Hst.
  destruct (push_targets ORNAMENT_COUNT [] [] s) as [arrs s1].
  cbn [snd] in Hst.
  pose proof (getRandomSpherePoint_stream 25 s1) as Hsp.
  destruct (getRandomSpherePoint 25 s1) as [starChaos s2].
  cbn [snd] in Hsp. subst s2. cbn [snd ret].
  unfold advance. rewrite Hst.
  replace (6 * ORNAMENT_COUNT + (3 + k))%nat
    with (6 * ORNAMENT_COUNT + 3 + k)%nat by lia.
  reflexivity.
Qed.

(** X5.  With draws in [0, 1) every ornament's tree target lies in the
    ornament cone (height from -6.8 up to below 6.7, at most 5.2 from the
    axis) and below the star's tree target; every chaos target lies within
    radius 22 of the origin and the star's chaos target within radius 25. *)
Theorem build_targets_in_bounds :
  forall s : Rng,
    unit_draws s ->
    let memo := fst (build_targets s) in
    Forall (fun t => -6.8 <= vy t < 6.7
                     /\ axis_distance t <= 5.2
                     /\ vy t < vy (star_tree (starTargets memo)))
           (tree (ornamentTargets memo))
    /\ Forall (fun c => Vector3_length c <= 22) (chaos (ornamentTargets memo))
    /\ Vector3_length (star_chaos (starTargets memo)) <= 25.
Proof.
  intros s Hs memo. unfold memo, build_targets, bind.
  assert (HP : forall s0, unit_draws s0 ->
             let t := fst (getConePoint 13.5 5.2 (-6.8) s0) in
             -6.8 <= vy t < 6.7 /\ axis_distance t <= 5.2 /\ vy t < 7.5).
  { intros s0 Hs0 t.
    destruct (getConePoint_polar 13.5 5.2 (-6.8) s0) as (Hy & _ & Ht & Hd);
      [lra | lra | exact Hs0 |].
    fold t in Hy, Hd.
    pose proof (Hs0 0%nat) as H0. pose proof (Hs0 2%nat) as H2.
    assert (0 < 5.2 * Math_pow (1 - s0 0%nat) 0.8)
      by (apply Rmult_lt_0_compat; lra).
    rewrite Hy, Hd. repeat split; try lra. nra. }
  assert (HQ : forall s0, unit_draws s0 ->
             Vector3_length (fst (getRandomSpherePoint 22 s0)) <= 22).
  { intros s0 Hs0.
    destruct (getRandomSpherePoint_polar 22 s0) as (Hrho & _ & _ & Hlen);
      [lra | exact Hs0 |].
    rewrite Hlen. lra. }
  destruct (push_targets_inv
              (fun t => -6.8 <= vy t < 6.7 /\ axis_distance t <= 5.2
                        /\ vy t < 7.5)
              (fun c => Vector3_length c <= 22)
              HP HQ ORNAMENT_COUNT [] [] s Hs
              (Forall_nil _) (Forall_nil _)) as (Htree & Hchaos & Hs1).
  destruct (push_targets ORNAMENT_COUNT [] [] s) as [arrs s1].
  cbn [fst snd] in Htree, Hchaos, Hs1.
  destruct (getRandomSpherePoint_polar 25 s1) as (Hrho & _ & _ & Hlen);
    [lra | exact Hs1 |].
  destruct (getRandomSpherePoint 25 s1) as [starChaos s2].
  cbn [fst] in Hlen, Hrho.
  cbn [fst ret tree chaos ornamentTargets starTargets star_tree star_chaos vy].
  split; [exact Htree | split; [exact Hchaos |]].
  rewrite Hlen. lra.
Qed.

Lemma build_targets_in_bounds_witness :
  Vector3_length
    (star_chaos (starTargets (fst (build_targets (fun _ => 1 / 2))))) <= 25.
Proof.
  apply (build_targets_in_bounds (fun _ => 1 / 2)). intro n. lra.
Defined.

(** The ornament cone stays inside the foliage cone: at the height an
    ornament draw gives, the widest ornament radius is below the foliage
    radius there. *)
Lemma ornament_cone_inside_foliage :
  forall u : R,
    0 <= u < 1 ->
    5.2 * Math_pow (1 - u) 0.8
    <= 5.5 * Math_pow (1 - (u * 13.5 + -6.8 - -7) / 14) 0.8.
Proof.
  intros u [Hu0 Hu1].
  set (a := 1 - u).
  set (b := 1 - (u * 13.5 + -6.8 - -7) / 14).
  assert (Ha : 0 < a) by (unfold a; lra).
  assert (Hb : 0 < b) by (unfold b; lra).
  unfold Math_pow.
  destruct (Rlt_dec 0 a) as [_ | Hn]; [| contradiction].
  destruct (Rlt_dec 0 b) as [_ | Hn]; [| contradiction].
  set (c := 14 / 13.8).
  assert (Hc : 1 <= c) by (unfold c; lra).
  assert (Hac : a <= c * b) by (unfold a, b, c; lra).
  assert (H1 : Rpower a 0.8 <= Rpower (c * b) 0.8).
  { apply Rle_Rpower_l; [lra | split; [exact Ha | exact Hac]]. }
  rewrite <- Rpower_mult_distr in H1 by lra.
  assert (H2 : Rpower c 0.8 <= c).
  { rewrite <- (Rpower_1 c) at 2 by lra. apply Rle_Rpower; lra. }
  assert (Hpb : 0 < Rpower b 0.8) by (unfold Rpower; apply exp_pos).
  assert (Hpc : 0 < Rpower c 0.8) by (unfold Rpower; apply exp_pos).
  assert (H3 : Rpower a 0.8 <= c * Rpower b 0.8) by nra.
  assert (H4 : 5.2 * c <= 5.5) by (unfold c; lra).
  nra.
Qed.

(** X6.  Ornaments nestle inside the tree: with draws in [0, 1) every
    ornament's tree target lies within the silhouette of the foliage cone
    (height 14, base radius 5.5, offset -7), that is between the foliage
    base and apex heights and no farther from the axis than the foliage
    radius at its height. *)
Theorem ornaments_inside_foliage_cone :
  forall s : Rng,
    unit_draws s ->
    Forall (fun t => -7 <= vy t <= -7 + 14
                     /\ axis_distance t
                        <= 5.5 * Math_pow (1 - (vy t - -7) / 14) 0.8)
           (tree (ornamentTargets (fst (build_targets s)))).
Proof.
  intros s Hs. unfold build_targets, bind.
  assert (HP : forall s0, unit_draws s0 ->
             let t := fst (getConePoint 13.5 5.2 (-6.8) s0) in
             -7 <= vy t <= -7 + 14
             /\ axis_distance t
                <= 5.5 * Math_pow (1 - (vy t - -7) / 14) 0.8).
  { intros s0 Hs0 t.
    destruct (getConePoint_polar 13.5 5.2 (-6.8) s0) as (Hy & _ & Ht & Hd);
      [lra | lra | exact Hs0 |].
    fold t in Hy, Hd.
    pose proof (Hs0 0%nat) as H0. pose proof (Hs0 2%nat) as H2.
    pose proof (ornament_cone_inside_foliage (s0 0%nat) H0) as Hin.
    rewrite Hy, Hd. split; [lra |].
    apply Rle_trans with (5.2 * Math_pow (1 - s0 0%nat) 0.8); [| exact Hin].
    assert (0 < 5.2 * Math_pow (1 - s0 0%nat) 0.8)
      by (apply Rmult_lt_0_compat; lra).
    nra. }
  destruct (push_targets_inv
              (fun t => -7 <= vy t <= -7 + 14
                        /\ axis_distance t
                           <= 5.5 * Math_pow (1 - (vy t - -7) / 14) 0.8)
              (fun _ => True)
              HP (fun _ _ => I) ORNAMENT_COUNT [] [] s Hs
              (Forall_nil _) (Forall_nil _)) as (Htree & _ & _).
  destruct (push_targets ORNAMENT_COUNT [] [] s) as [arrs s1].
  destruct (getRandomSpherePoint 25 s1) as [starChaos s2].
  exact Htree.
Qed.

Lemma ornaments_inside_foliage_cone_witness :
  Forall (fun t => -7 <= vy t <= -7 + 14
                   /\ axis_distance t
                      <= 5.5 * Math_pow (1 - (vy t - -7) / 14) 0.8)
         (tree (ornamentTargets (fst (build_targets (fun _ => 1 / 2))))).
Proof.
  apply (ornaments_inside_foliage_cone (fun _ => 1 / 2)). intro n. lra.
Defined.

(* ================================================================== *)
(** * The particle data *)
(* ================================================================== *)

Section ParticleFacts.
Import SceneData.

(** The particle of index [i] from the eight draws it takes. *)
Lemma make_particle_eq :
  forall (i : nat) (s : Rng),
    make_particle i s
    = (let treePos := fst (getConePoint 14 5.5 (-7) s) in
       let chaosPos := fst (getRandomSpherePoint 18 (advance 3 s)) in
       if (FOLIAGE_COUNT <=? i)%nat then
         {| p_treePos := treePos; p_chaosPos := chaosPos;
            p_color := if Rlt_dec 0.5 (s 6%nat) then warmWhite else brightGold;
            p_size := s 7%nat * 0.4 + 0.3; p_isLight := 1 |}
       else
         {| p_treePos := treePos; p_chaosPos := chaosPos;
            p_color := if Rlt_dec 0.7 (s 6%nat) then emerald else darkGreen;
            p_size := s 7%nat * 0.25 + 0.1; p_isLight := 0 |},
       advance 8 s).
Proof.
  intros i s. unfold make_particle, bind.
  destruct (FOLIAGE_COUNT <=? i)%nat; reflexivity.
Qed.

Lemma particle_loop_succ :
  forall (n i : nat) (s : Rng),
    particle_loop (S n) i s
    = (fst (make_particle i s)
         :: fst (particle_loop n (S i) (advance 8 s)),
       snd (particle_loop n (S i) (advance 8 s))).
Proof.
  intros n i s. cbn [particle_loop]. unfold bind at 1.
  rewrite make_particle_eq. cbn [fst snd]. unfold bind, ret.
  now destruct (particle_loop n (S i) (advance 8 s)).
Qed.

Lemma particle_loop_length :
  forall (n i : nat) (s : Rng),
    length (fst (particle_loop n i s)) = n.
Proof.
  induction n as [| n IH]; intros i s; [reflexivity |].
  rewrite particle_loop_succ. cbn [fst length]. now rewrite IH.
Qed.

Lemma particle_loop_stream :
  forall (n i : nat) (s : Rng) (k : nat),
    snd (particle_loop n i s) k = s (8 * n + k)%nat.
Proof.
  induction n as [| n IH]; intros i s k; [reflexivity |].
  rewrite particle_loop_succ. cbn [snd]. rewrite IH.
  unfold advance. f_equal; lia.
Qed.

(** What holds of the particle made at every index holds of every entry of
    the list the loop returns. *)
Lemma particle_loop_inv :
  forall (G : nat -> Particle -> Prop),
    (forall i s, unit_draws s -> G i (fst (make_particle i s))) ->
    forall (n i : nat) (s : Rng) (d : Particle) (j : nat),
      unit_draws s -> (j < n)%nat ->
      G (i + j)%nat (nth j (fst (particle_loop n i s)) d).
Proof.
  intros G HG.
  induction n as [| n IH]; intros i s d j Hs Hj; [lia |].
  rewrite particle_loop_succ. cbn [fst].
  destruct j as [| j].
  - rewrite Nat.add_0_r. cbn [nth]. now apply HG.
  - cbn [nth]. replace (i + S j)%nat with (S i + j)%nat by lia.
    apply IH; [now apply unit_draws_advance | lia].
Qed.

(** The category flags do not depend on the draws: zeros up to the foliage
    count, ones after it. *)
Lemma particle_loop_isLight :
  forall (n i : nat) (s : Rng),
    map p_isLight (fst (particle_loop n i s))
    = repeat 0 (Nat.min n (FOLIAGE_COUNT - i))
      ++ repeat 1 (n - (FOLIAGE_COUNT - i)).
Proof.
  induction n as [| n IH]; intros i s; [reflexivity |].
  rewrite particle_loop_succ. cbn [fst map]. rewrite IH.
  rewrite make_particle_eq. cbn [fst].
  destruct (Nat.leb_spec FOLIAGE_COUNT i) as [Hle | Hlt].
  - cbn [p_isLight].
    replace (FOLIAGE_COUNT - i)%nat with 0%nat by lia.
    replace (FOLIAGE_COUNT - S i)%nat with 0%nat by lia.
    rewrite !Nat.min_0_r, !Nat.sub_0_r. reflexivity.
  - cbn [p_isLight].
    replace (FOLIAGE_COUNT - i)%nat with (S (FOLIAGE_COUNT - S i)) by lia.
    rewrite <- Nat.succ_min_distr. cbn [repeat app Nat.sub]. reflexivity.
Qed.

End ParticleFacts.

Section ParticleData.
Import SceneData.

Lemma flat_map_triples_length :
  forall (A : Type) (f : A -> list R) (l : list A),
    (forall a, length (f a) = 3%nat) ->
    length (flat_map f l) = (3 * length l)%nat.
Proof.
  intros A f l Hf. induction l as [| a l IH]; [reflexivity |].
  cbn [flat_map]. rewrite length_app, Hf, IH. cbn [length]. lia.
Qed.

Lemma particles_length :
  forall s : Rng, length (fst (particles s)) = TOTAL_PARTICLES.
Proof. intro s. exact (particle_loop_length TOTAL_PARTICLES 0 s). Qed.

(** X7.  The particle loop makes [TOTAL_PARTICLES] particles in two
    contiguous ranges.  With draws in [0, 1), a particle of index below
    [FOLIAGE_COUNT] is foliage: flag 0, size in [0.1, 0.35), colour emerald
    or dark green; from [FOLIAGE_COUNT] on it is a light: flag 1, size in
    [0.3, 0.7), colour warm white or bright gold. *)
Theorem particles_two_ranges :
  forall s : Rng,
    unit_draws s ->
    let ps := fst (particles s) in
    length ps = TOTAL_PARTICLES
    /\ (forall (j : nat) (d : Particle),
          (j < TOTAL_PARTICLES)%nat ->
          let p := nth j ps d in
          ((j < FOLIAGE_COUNT)%nat ->
             p_isLight p = 0 /\ 0.1 <= p_size p < 0.35
             /\ (p_color p = emerald \/ p_color p = darkGreen))
          /\ ((FOLIAGE_COUNT <= j)%nat ->
                p_isLight p = 1 /\ 0.3 <= p_size p < 0.7
                /\ (p_color p = warmWhite \/ p_color p = brightGold))).
Proof.
  intros s Hs ps. split; [apply particles_length |].
  intros j d Hj.
  apply (particle_loop_inv
           (fun i p =>
              ((i < FOLIAGE_COUNT)%nat ->
                 p_isLight p = 0 /\ 0.1 <= p_size p < 0.35
                 /\ (p_color p = emerald \/ p_color p = darkGreen))
              /\ ((FOLIAGE_COUNT <= i)%nat ->
                    p_isLight p = 1 /\ 0.3 <= p_size p < 0.7
                    /\ (p_color p = warmWhite \/ p_color p = brightGold)))
           ) with (i := 0%nat); try assumption.
  clear. intros i s Hs. rewrite make_particle_eq. cbn [fst].
  pose proof (Hs 7%nat) as H7.
  destruct (Nat.leb_spec FOLIAGE_COUNT i) as [Hle | Hlt]; split; intro Hi;
    try lia; cbn [p_isLight p_size p_color].
  - split; [reflexivity | split; [lra |]].
    destruct (Rlt_dec 0.5 (s 6%nat)); auto.
  - split; [reflexivity | split; [lra |]].
    destruct (Rlt_dec 0.7 (s 6%nat)); auto.
Qed.

Lemma particles_two_ranges_witness :
  length (fst (particles (fun _ => 1 / 2))) = TOTAL_PARTICLES.
Proof.
  destruct (particles_two_ranges (fun _ => 1 / 2)) as [Hlen _].
  - intro n. lra.
  - exact Hlen.
Defined.

(** X8.  The typed arrays hold three entries per particle for the two
    positions and the colour and one entry for size and flag; the flag
    array is [FOLIAGE_COUNT] zeros followed by [LIGHTS_COUNT] ones, whatever
    the draws are; and the loop takes eight draws per particle. *)
Theorem particleData_layout :
  forall (palette : ColorName -> Color) (s : Rng),
    let data := fst (particleData palette s) in
    length (treePositions data) = (3 * TOTAL_PARTICLES)%nat
    /\ length (chaosPositions data) = (3 * TOTAL_PARTICLES)%nat
    /\ length (colors data) = (3 * TOTAL_PARTICLES)%nat
    /\ length (sizes data) = TOTAL_PARTICLES
    /\ isLight data = repeat 0 FOLIAGE_COUNT ++ repeat 1 LIGHTS_COUNT
    /\ (forall k, snd (particleData palette s) k
                  = s (8 * TOTAL_PARTICLES + k)%nat).
Proof.
  intros palette s data.
  assert (Hdata : data = buffers palette (fst (particles s))).
  { unfold data, particleData, bind, ret. now destruct (particles s). }
  assert (Hsnd : snd (particleData palette s) = snd (particles s)).
  { unfold particleData, bind, ret. now destruct (particles s). }
  pose proof (particles_length s) as Hlen.
  rewrite Hdata. unfold buffers.
  cbn [treePositions chaosPositions colors sizes isLight].
  rewrite !flat_map_triples_length by reflexivity.
  rewrite length_map, Hlen.
  do 4 (split; [reflexivity |]). split.
  - unfold particles. rewrite particle_loop_isLight.
    replace (Nat.min TOTAL_PARTICLES (FOLIAGE_COUNT - 0)) with FOLIAGE_COUNT
      by (unfold TOTAL_PARTICLES; lia).
    replace (TOTAL_PARTICLES - (FOLIAGE_COUNT - 0))%nat with LIGHTS_COUNT
      by (unfold TOTAL_PARTICLES; lia).
    reflexivity.
  - intro k. rewrite Hsnd. apply particle_loop_stream.
Qed.

(** X9.  With draws in [0, 1) every particle's tree position lies in the
    foliage cone (height from -7 up to below 7, at most 5.5 from the axis)
    and so within distance 9 of the origin, well inside the chaos sphere of
    radius 18 that bounds its chaos position. *)
Theorem particle_positions_in_bounds :
  forall (s : Rng) (j : nat) (d : Particle),
    unit_draws s -> (j < TOTAL_PARTICLES)%nat ->
    let p := nth j (fst (particles s)) d in
    -7 <= vy (p_treePos p) < 7
    /\ axis_distance (p_treePos p) <= 5.5
    /\ Vector3_length (p_treePos p) < 9
    /\ Vector3_length (p_chaosPos p) <= 18.
Proof.
  intros s j d Hs Hj.
  apply (particle_loop_inv
           (fun _ p =>
              -7 <= vy (p_treePos p) < 7
              /\ axis_distance (p_treePos p) <= 5.5
              /\ Vector3_length (p_treePos p) < 9
              /\ Vector3_length (p_chaosPos p) <= 18))
    with (i := 0%nat); try assumption.
  clear. intros i s Hs. rewrite make_particle_eq. cbn [fst].
  assert (Htree : let t := fst (getConePoint 14 5.5 (-7) s) in
                  -7 <= vy t < 7 /\ axis_distance t <= 5.5
                  /\ Vector3_length t < 9).
  { intro t.
    destruct (getConePoint_polar 14 5.5 (-7) s) as (Hy & _ & Ht & Hd);
      [lra | lra | exact Hs |].
    fold t in Hy, Hd.
    pose proof (Hs 0%nat) as H0. pose proof (Hs 2%nat) as H2.
    assert (Hpos : 0 < 5.5 * Math_pow (1 - s 0%nat) 0.8)
      by (apply Rmult_lt_0_compat; lra).
    assert (Hdist : 0 <= axis_distance t <= 5.5) by (rewrite Hd; split; nra).
    assert (Hyr : -7 <= vy t < 7) by (rewrite Hy; lra).
    split; [exact Hyr | split; [apply Hdist |]].
    assert (Hsq : vx t * vx t + vz t * vz t
                  = axis_distance t * axis_distance t).
    { unfold axis_distance. rewrite sqrt_sqrt; [reflexivity |]. nra. }
    unfold Vector3_length.
    replace 9 with (sqrt (9 * 9)) by (apply sqrt_square; lra).
    apply sqrt_lt_1_alt. split; [nra |].
    replace (vx t * vx t + vy t * vy t + vz t * vz t)
      with (axis_distance t * axis_distance t + vy t * vy t)
      by (rewrite <- Hsq; ring).
    nra. }
  assert (Hchaos : Vector3_length
                     (fst (getRandomSpherePoint 18 (advance 3 s))) <= 18).
  { destruct (getRandomSpherePoint_polar 18 (advance 3 s))
      as (Hrho & _ & _ & Hlen);
      [lra | now apply unit_draws_advance |].
    rewrite Hlen. lra. }
  destruct Htree as (H1 & H2 & H3).
  destruct (FOLIAGE_COUNT <=? i)%nat; cbn [p_treePos p_chaosPos]; auto.
Qed.

Lemma particle_positions_in_bounds_witness :
  Vector3_length
    (p_treePos (nth 0 (fst (particles (fun _ => 1 / 2)))
                    (mkParticle Vector3_new Vector3_new emerald 0 0))) < 9.
Proof.
  apply (particle_positions_in_bounds (fun _ => 1 / 2) 0
           (mkParticle Vector3_new Vector3_new emerald 0 0)).
  - intro n. lra.
  - unfold TOTAL_PARTICLES, FOLIAGE_COUNT, LIGHTS_COUNT. lia.
Defined.

End ParticleData.

(* ================================================================== *)
(** * The layout effect *)
(* ================================================================== *)

Section OrnamentColors.
Import SceneData.

Lemma color_loop_eq :
  forall (n : nat) (s : Rng),
    fst (color_loop n s) = map (fun i => ornament_color (s i)) (seq 0 n)
    /\ (forall k, snd (color_loop n s) k = s (n + k)%nat).
Proof.
  induction n as [| n IH]; intro s; [split; reflexivity |].
  cbn [color_loop]. unfold bind at 1, Math_random.
  destruct (IH (fun k => s (S k))) as [Hfst Hsnd].
  unfold bind, ret.
  destruct (color_loop n (fun k => s (S k))) as [rest s1].
  cbn [fst snd] in *. split.
  - rewrite Hfst. cbn [seq map]. f_equal.
    rewrite <- seq_shift, map_map. reflexivity.
  - intro k. rewrite Hsnd. reflexivity.
Qed.

(** X10.  Without the instanced mesh the layout effect draws nothing and sets
    no colour.  With it, it sets [ORNAMENT_COUNT] colours, the colour of
    ornament [i] decided by draw [i] alone: gold above 0.5, red above 0.2
    and up to 0.5, silver up to 0.2. *)
Theorem useLayoutEffect_colors :
  forall s : Rng,
    useLayoutEffect false s = (None, s)
    /\ (exists cs,
          fst (useLayoutEffect true s) = Some cs
          /\ length cs = ORNAMENT_COUNT
          /\ (forall i d, (i < ORNAMENT_COUNT)%nat ->
                nth i cs d = ornament_color (s i)
                /\ (nth i cs d = gold <-> 0.5 < s i)
                /\ (nth i cs d = red <-> 0.2 < s i <= 0.5)
                /\ (nth i cs d = silver <-> s i <= 0.2)))
    /\ (forall k, snd (useLayoutEffect true s) k = s (ORNAMENT_COUNT + k)%nat).
Proof.
  intro s. split; [reflexivity |].
  destruct (color_loop_eq ORNAMENT_COUNT s) as [Hfst Hsnd].
  unfold useLayoutEffect, bind, ret.
  destruct (color_loop ORNAMENT_COUNT s) as [cs s1]. cbn [fst snd] in *.
  split; [| exact Hsnd].
  exists cs. split; [reflexivity |].
  split; [rewrite Hfst; now rewrite length_map, length_seq |].
  intros i d Hi.
  assert (Hnth : nth i cs d = ornament_color (s i)).
  { rewrite Hfst.
    rewrite (nth_indep _ d (ornament_color (s 0%nat)))
      by (now rewrite length_map, length_seq).
    rewrite (map_nth (fun i => ornament_color (s i)) (seq 0 ORNAMENT_COUNT) 0%nat).
    now rewrite seq_nth. }
  split; [exact Hnth |]. rewrite Hnth. unfold ornament_color.
  destruct (Rlt_dec 0.5 (s i)) as [H5 | H5];
    [| destruct (Rlt_dec 0.2 (s i)) as [H2 | H2]];
    (split; [split; intro H | split; split; intro H]);
    first [discriminate | reflexivity | lra].
Qed.

End OrnamentColors.

(* ================================================================== *)
(** * Further properties of the frame callback *)
(* ================================================================== *)

(** X11.  With [delta * 2.0] between 0 and 1, a chaos level and a target that
    start in [0, 1] keep the chaos level in [0, 1] after every frame, and
    with it the ornament scale between 0.1 and 0.35. *)
Theorem chaosLevel_stays_in_unit_interval :
  forall (memo : Memo) (clock : nat -> R) (delta : R) (sc : Scene),
    0 <= delta * 2.0 <= 1 ->
    0 <= chaosLevel (appStore sc) <= 1 ->
    0 <= targetChaosLevel (appStore sc) <= 1 ->
    forall n : nat,
      0 <= chaos_after memo clock delta sc n <= 1
      /\ 0.1 <= lerp 0.35 0.1 (chaos_after memo clock delta sc n) <= 0.35.
Proof.
  intros memo clock delta sc Hd Hc Ht.
  assert (Hlevel : forall n, 0 <= chaos_after memo clock delta sc n <= 1).
  { induction n as [| n IH]; [exact Hc |].
    rewrite chaos_after_succ.
    pose proof (lerp_between (chaos_after memo clock delta sc n)
                  (targetChaosLevel (appStore sc)) (delta * 2.0) Hd) as Hb.
    unfold Rmin, Rmax in Hb.
    destruct (Rle_dec (chaos_after memo clock delta sc n)
                (targetChaosLevel (appStore sc))); lra. }
  intro n. split; [apply Hlevel |].
  specialize (Hlevel n). unfold lerp. lra.
Qed.

Lemma chaosLevel_stays_in_unit_interval_witness :
  0 <= chaos_after bare_memo (fun _ => 0) (1 / 60) (bare_scene 0 1) 100 <= 1.
Proof.
  apply (chaosLevel_stays_in_unit_interval bare_memo (fun _ => 0) (1 / 60)
           (bare_scene 0 1)); simpl; lra.
Defined.

Section FrameEffects.
Variable memo : Memo.
Variable clock : nat -> R.
Variable delta : R.



Lemma useFrame_ornaments_mounted :
  forall (e : R) (sc : Scene) (old : list Instance),
    ornamentsRef sc = Some old ->
    let rounds :=
      update_ornaments (tree (ornamentTargets memo))
                       (chaos (ornamentTargets memo)) (currentPos sc)
                       (chaosLevel (appStore (useFrame memo e delta sc)))
                       delta in
    ornamentsRef (useFrame memo e delta sc) = Some (map snd rounds)
    /\ currentPos (useFrame memo e delta sc) = map fst rounds.
Proof.
  intros e sc old H rounds. unfold useFrame. rewrite H. split; reflexivity.
Qed.


Lemma update_ornaments_positions :
  forall (treeArr chaosArr cur : list Vector3) (k d : R),
    map inst_position (map snd (update_ornaments treeArr chaosArr cur k d))
    = map fst (update_ornaments treeArr chaosArr cur k d).
Proof.
  induction treeArr as [| tPos treeArr IH]; intros chaosArr cur k d;
    [reflexivity |].
  destruct chaosArr as [| cPos chaosArr]; [reflexivity |].
  destruct cur as [| p cur]; [reflexivity |].
  cbn [update_ornaments map fst snd inst_position]. f_equal. apply IH.
Qed.

Lemma update_ornaments_length :
  forall (treeArr chaosArr cur : list Vector3) (k d : R),
    length treeArr = length cur -> length chaosArr = length cur ->
    length (update_ornaments treeArr chaosArr cur k d) = length cur.
Proof.
  induction treeArr as [| tPos treeArr IH]; intros chaosArr cur k d Ht Hc.
  - destruct cur; [reflexivity | discriminate].
  - destruct cur as [| p cur]; [discriminate |].
    destruct chaosArr as [| cPos chaosArr]; [discriminate |].
    cbn [update_ornaments length]. f_equal. apply IH.
    + now injection Ht.
    + now injection Hc.
Qed.


End FrameEffects.

(** ** A position that follows a moving target *)



Section Follower.
(** [level n] is the chaos level after [n] frames, moving toward [goal];
    [pos n] is one coordinate of a position that each frame is pulled
    toward the blend of [a] and [b] by the new level. *)
Variables level pos : nat -> R.
Variables a b delta goal : R.

Hypothesis level_gap :
  forall n, goal - level n = (goal - level 0%nat) * (1 - delta * 2.0) ^ n.
Hypothesis pos_step :
  forall n,
    pos (S n) = lerp (pos n) (lerp a b (level (S n))) (delta * 4.0).



End Follower.

(** ** Many frames *)

Section ManyFrames.
Variable memo : Memo.
Variable clock : nat -> R.
Variable delta : R.
Variable sc : Scene.







End ManyFrames.





(** X14.  A frame keeps what it shows in step with what it stores: a
    mounted shader gets the new chaos level of the store as [uProgress] and
    the clock's elapsed time as [uTime]; with the instanced mesh mounted the
    instances written sit exactly at the new current positions, and when the
    target arrays are as long as [currentPos] there is one instance per
    entry and [currentPos] keeps its length. *)
Theorem frame_outputs_in_step :
  forall (memo : Memo) (elapsedTime delta : R) (sc : Scene),
    let sc' := useFrame memo elapsedTime delta sc in
    (forall u, shaderRef sc = Some u ->
       shaderRef sc'
       = Some (mkShaderUniforms (chaosLevel (appStore sc')) elapsedTime))
    /\ (forall old, ornamentsRef sc = Some old ->
          exists insts,
            ornamentsRef sc' = Some insts
            /\ map inst_position insts = currentPos sc'
            /\ (length (tree (ornamentTargets memo)) = length (currentPos sc) ->
                length (chaos (ornamentTargets memo)) = length (currentPos sc) ->
                length insts = length (currentPos sc)
                /\ length (currentPos sc') = length (currentPos sc))).
Proof.
  intros memo elapsedTime delta sc sc'. split.
  - intros u H. unfold sc', useFrame. rewrite H. reflexivity.
  - intros old H.
    destruct (useFrame_ornaments_mounted memo delta elapsedTime sc old H)
      as [Hm Hp].
    fold sc' in Hm, Hp. eexists. split; [exact Hm |].
    split; [rewrite Hp; apply update_ornaments_positions |].
    intros Ht Hc. rewrite Hp, !length_map.
    split; apply update_ornaments_length; assumption.
Qed.

Lemma frame_outputs_in_step_witness :
  shaderRef (useFrame demo_memo 2 (1 / 60) (demo_scene 0 1))
  = Some (mkShaderUniforms
            (chaosLevel (appStore (useFrame demo_memo 2 (1 / 60)
                                     (demo_scene 0 1))))
            2).
Proof.
  destruct (frame_outputs_in_step demo_memo 2 (1 / 60) (demo_scene 0 1))
    as [Hshader _].
  apply (Hshader (mkShaderUniforms 0 0)). reflexivity.
Defined.





(* ================================================================== *)
(** * Further properties of the shaders *)
(* ================================================================== *)

Lemma pow_two : forall x : R, 0 <= x -> Fragment.pow x 2 = x * x.
Proof.
  intros x Hx. unfold Fragment.pow.
  destruct (Rlt_dec 0 x) as [Hpos | Hn].
  - replace 2 with (INR 2) by (simpl; ring).
    rewrite Rpower_pow by exact Hpos. ring.
  - replace x with 0 by lra. ring.
Qed.

(** X17.  The fragment shader draws a disc: a fragment farther than 0.5 from
    the centre of the sprite is discarded, any other gets alpha 1.  For a
    kept fragment the falloff [f = 1 - 2 dist] lies in [0, 1], so [pow] is
    never given a negative base; a light adds [f * f] to each colour
    channel, any other particle multiplies each channel by [2 f]. *)
Theorem fragment_disc :
  forall (vColor : vec3) (vIsLight : R) (coord : vec2),
    let dist := Fragment.sprite_dist coord in
    let f := 1 - dist * 2 in
    (0.5 < dist -> Fragment.main vColor vIsLight coord = None)
    /\ (dist <= 0.5 ->
        0 <= f <= 1
        /\ (0.5 < vIsLight ->
            Fragment.main vColor vIsLight coord
            = Some (Vec4 (v3x vColor + f * f) (v3y vColor + f * f)
                         (v3z vColor + f * f) 1))
        /\ (vIsLight <= 0.5 ->
            Fragment.main vColor vIsLight coord
            = Some (Vec4 (v3x vColor * (2 * f)) (v3y vColor * (2 * f))
                         (v3z vColor * (2 * f)) 1))).
Proof.
  intros vColor vIsLight coord dist f.
  assert (Hd0 : 0 <= dist) by apply sqrt_pos.
  split.
  - intro Hout. unfold Fragment.main. fold dist.
    destruct (Rlt_dec 0.5 dist) as [_ | Hn]; [reflexivity | contradiction].
  - intro Hin.
    assert (Hf : 0 <= f <= 1) by (unfold f; lra).
    split; [exact Hf | split].
    + intro Hlight. unfold Fragment.main. fold dist.
      destruct (Rlt_dec 0.5 dist) as [Hout | _]; [lra |].
      destruct (Rlt_dec 0.5 vIsLight) as [_ | Hn]; [| contradiction].
      fold f. rewrite pow_two by apply Hf. reflexivity.
    + intro Hfoliage. unfold Fragment.main. fold dist.
      destruct (Rlt_dec 0.5 dist) as [Hout | _]; [lra |].
      destruct (Rlt_dec 0.5 vIsLight) as [Hl | _]; [lra |].
      fold f. unfold muls3, map3; cbn [v3x v3y v3z].
      f_equal. f_equal; ring.
Qed.

Lemma fragment_disc_witness :
  Fragment.main (Vec3 1 1 1) 1 (Vec2 0.5 0.5)
  = Some (Vec4 (1 + (1 - Fragment.sprite_dist (Vec2 0.5 0.5) * 2)
                    * (1 - Fragment.sprite_dist (Vec2 0.5 0.5) * 2))
               (1 + (1 - Fragment.sprite_dist (Vec2 0.5 0.5) * 2)
                    * (1 - Fragment.sprite_dist (Vec2 0.5 0.5) * 2))
               (1 + (1 - Fragment.sprite_dist (Vec2 0.5 0.5) * 2)
                    * (1 - Fragment.sprite_dist (Vec2 0.5 0.5) * 2))
               1).
Proof.
  destruct (fragment_disc (Vec3 1 1 1) 1 (Vec2 0.5 0.5)) as [_ Hin].
  destruct Hin as (_ & Hlight & _).
  - unfold Fragment.sprite_dist, Fragment.length2; cbn [v2x v2y].
    replace ((0.5 - 0.5) * (0.5 - 0.5) + (0.5 - 0.5) * (0.5 - 0.5)) with 0
      by ring.
    rewrite sqrt_0. lra.
  - apply Hlight. lra.
Defined.

(** X18.  The twinkle of a light lies in [0, 1], so the size a light
    enters [gl_PointSize] with is between its fixed size and 2.5 times its
    fixed size, when that size is not negative. *)
Theorem light_size_range :
  forall (u : Uniforms) (a : Attributes),
    0.5 < aIsLight a -> 0 <= aSize a ->
    0 <= twinkle u a <= 1
    /\ aSize a <= baseSize u a <= 2.5 * aSize a.
Proof.
  intros u a Hlight Hsize.
  assert (Ht : 0 <= twinkle u a <= 1).
  { unfold twinkle.
    pose proof (SIN_bound (Glsl.uTime u * 3 + v3x (displaced_pos u a) * 10))
      as Hsin.
    revert Hsin.
    generalize (sin (Glsl.uTime u * 3 + v3x (displaced_pos u a) * 10)).
    intros sn Hsin. lra. }
  split; [exact Ht |].
  unfold baseSize.
  destruct (Rlt_dec 0.5 (aIsLight a)) as [_ | Hn]; [| contradiction].
  revert Ht. generalize (twinkle u a). intros tw Ht. nra.
Qed.

Lemma light_size_range_witness :
  aSize (demo_particle 1)
  <= baseSize (demo_uniforms 0 0) (demo_particle 1)
  <= 2.5 * aSize (demo_particle 1).
Proof.
  apply (light_size_range (demo_uniforms 0 0) (demo_particle 1));
    simpl; lra.
Defined.

(** X19.  The wind moves a vertex along the diagonal: the same amount,
    [noise * 0.2 * (1 - uProgress)], is added to each of the three
    coordinates of the mixed position; with the progress in [0, 1] its
    magnitude is at most 0.2 times that of the noise value. *)
Theorem wind_along_diagonal :
  forall (u : Uniforms) (a : Attributes),
    v3x (displaced_pos u a) - v3x (mixed_pos u a) = wind_offset u a
    /\ v3y (displaced_pos u a) - v3y (mixed_pos u a) = wind_offset u a
    /\ v3z (displaced_pos u a) - v3z (mixed_pos u a) = wind_offset u a
    /\ (0 <= Glsl.uProgress u <= 1 ->
        Rabs (wind_offset u a) <= 0.2 * Rabs (wind_noise u a)).
Proof.
  intros u a.
  assert (Hcomp : forall (v : vec3) (w : R),
             v3x (adds3 v w) - v3x v = w
             /\ v3y (adds3 v w) - v3y v = w
             /\ v3z (adds3 v w) - v3z v = w).
  { intros [v1 v2 v3] w. unfold adds3, add3, zip3, splat3; cbn [v3x v3y v3z].
    repeat split; ring. }
  destruct (Hcomp (mixed_pos u a) (wind_offset u a)) as (Hx & Hy & Hz).
  split; [exact Hx | split; [exact Hy | split; [exact Hz |]]].
  intro Hp. rewrite wind_offset_factored.
  generalize (wind_noise u a). intro n.
  rewrite Rabs_mult.
  rewrite (Rabs_pos_eq (0.2 * (1 - Glsl.uProgress u))) by nra.
  pose proof (Rabs_pos n). nra.
Qed.

Lemma wind_along_diagonal_witness :
  Rabs (wind_offset (demo_uniforms (1 / 2) 0) (demo_particle 1))
  <= 0.2 * Rabs (wind_noise (demo_uniforms (1 / 2) 0) (demo_particle 1)).
Proof.
  apply (wind_along_diagonal (demo_uniforms (1 / 2) 0) (demo_particle 1)).
  simpl. lra.
Defined.

